(** * shiny/driver/x11driver/window.go: the per-window X11 adapter

    A shallow embedding of [windowImpl] and of its methods.  Everything the
    window talks to (the X connection, the lifecycle state machine) is the
    environment: every call into it is appended to a history of actions, and
    what it answers is given by oracles that may depend on the whole history. *)

From Stdlib Require Import ZArith List Bool Lia String Strings.Byte SpecFloat.
From stdpp Require Import base option list gmap.
Import ListNotations.

Local Open Scope Z_scope.

(** ** Machine integers *)

(** Conversion to a signed [w]-bit integer (two's complement wrap-around). *)
Definition wrap_signed (w : Z) (n : Z) : Z :=
  (n + 2 ^ (w - 1)) mod 2 ^ w - 2 ^ (w - 1).

(** Conversion to an unsigned [w]-bit integer. *)
Definition wrap_unsigned (w : Z) (n : Z) : Z := n mod 2 ^ w.

Definition int16 (n : Z) : Z := wrap_signed 16 n.
Definition int32 (n : Z) : Z := wrap_signed 32 n.
Definition uint32 (n : Z) : Z := wrap_unsigned 32 n.

(** Go's [int]; 64 bits on the platforms the driver is built for. *)
Definition int_bits : Z := 64.
Definition int (n : Z) : Z := wrap_signed int_bits n.
Definition int_add (a b : Z) : Z := int (a + b).

Definition is_int16 (n : Z) : Prop := -32768 <= n < 32768.
Definition is_uint16 (n : Z) : Prop := 0 <= n < 65536.
Definition is_uint8 (n : Z) : Prop := 0 <= n < 256.

(** ** float32 *)

(** IEEE 754 binary32: 24 bits of precision, infinities at exponent 128. *)
Definition float32 : Type := spec_float.

(** Conversion of an integer to float32, rounding to nearest even. *)
Definition float32_of_int (n : Z) : float32 := binary_normalize 24 128 n 0 false.

(** The integer a float32 denotes, when it denotes one. *)
Definition float32_to_Z (f : float32) : option Z :=
  match f with
  | S754_zero _ => Some 0
  | S754_finite sg m e =>
      let v :=
        match e with
        | Z0 => Some (Zpos m)
        | Zpos _ => Some (Zpos m * 2 ^ e)
        | Zneg p =>
            if Zpos m mod 2 ^ Zpos p =? 0 then Some (Zpos m / 2 ^ Zpos p) else None
        end in
      if sg then Z.opp <$> v else v
  | _ => None
  end.

(** ** The Go [error] values the X connection hands back *)

Inductive error : Type := XError (msg : string).

(** ** golang.org/x/mobile: geom, event/size, event/mouse, event/lifecycle *)

Module geom.
(** [type Pt float32] *)
Definition Pt : Type := float32.
(** The conversion [geom.Pt(n)] of an [int]. *)
Definition Pt_of_int (n : Z) : Pt := float32_of_int n.
End geom.

Module size.
Record Event : Type := {
  WidthPx : Z;
  HeightPx : Z;
  WidthPt : geom.Pt;
  HeightPt : geom.Pt;
  PixelsPerPt : float32
}.
End size.

Module mouse.
(** [type Button int32] *)
Definition Button : Type := Z.
Definition ButtonNone : Button := 0.
Definition ButtonLeft : Button := 1.
Definition ButtonMiddle : Button := 2.
Definition ButtonRight : Button := 3.
Definition ButtonWheelUp : Button := -1.
Definition ButtonWheelDown : Button := -2.
Definition ButtonWheelLeft : Button := -3.
Definition ButtonWheelRight : Button := -4.

(** [func (b Button) IsWheel() bool { return b < 0 }] *)
Definition IsWheel (b : Button) : bool := b <? 0.

(** [type Direction uint8] *)
Definition Direction : Type := Z.
Definition DirNone : Direction := 0.
Definition DirPress : Direction := 1.
Definition DirRelease : Direction := 2.
Definition DirStep : Direction := 3.

Record Event : Type := {
  X : float32;
  Y : float32;
  Button_ : Button;
  Modifiers : Z;
  Direction_ : Direction
}.
End mouse.

Module lifecycle.
(** [From] and [To] are stages ([type Stage uint32]). *)
Record Event : Type := { From : Z; To : Z }.
End lifecycle.

(** What travels through the window's event queue. *)
Inductive QEvent : Type :=
| EvSize (e : size.Event)
| EvMouse (e : mouse.Event)
| EvLifecycle (e : lifecycle.Event)
| EvPaint.

Definition is_size (e : QEvent) : bool :=
  match e with EvSize _ => true | _ => false end.

(** ** github.com/BurntSushi/xgb: xproto and render *)

Module xproto.
Definition Window : Type := Z.
Definition Gcontext : Type := Z.
Definition Atom : Type := Z.
Definition Cursor : Type := Z.

Definition PropModeReplace : Z := 0.
Definition CwCursor : Z := 16384.
Definition TimeCurrentTime : Z := 0.
Definition EventMaskSubstructureNotify : Z := 524288.
Definition EventMaskSubstructureRedirect : Z := 1048576.

Record ScreenInfo : Type := { Root : Window; RootDepth : Z }.

Record ConfigureNotifyEvent : Type := {
  X : Z;       (* int16 *)
  Y : Z;       (* int16 *)
  Width : Z;   (* uint16 *)
  Height : Z   (* uint16 *)
}.

Record ClientMessageEvent : Type := {
  Format : Z;
  Window_ : Window;
  Type_ : Atom;
  Data32 : list Z
}.

Record GetInputFocusReply : Type := { Focus : Window }.
Record TranslateCoordinatesReply : Type := { DstX : Z; DstY : Z }.

(** The requests [windowImpl] puts on the wire. *)
Inductive Request : Type :=
| FreePicture (p : Z)
| FreeGC (g : Gcontext)
| DestroyWindow (w : Window)
| ChangePropertyChecked (mode : Z) (w : Window) (property type : Atom)
    (format : Z) (dataLen : Z) (data : list byte)
| ChangeWindowAttributes (w : Window) (valueMask : Z) (valueList : list Z)
| GetInputFocus
| TranslateCoordinates (srcWindow dstWindow : Window) (srcX srcY : Z)
| WarpPointerChecked (srcWindow dstWindow : Window)
    (srcX srcY srcWidth srcHeight dstX dstY : Z)
| SendEventChecked (propagate : bool) (destination : Window) (eventMask : Z)
    (event : ClientMessageEvent)
| MapWindowChecked (w : Window).
End xproto.

Module screen.
(** [screen.Cursor]: an opaque token. *)
Definition Cursor : Type := Z.
End screen.

Module image.
Record Point : Type := { X : Z; Y : Z }.
End image.

(** ** The environment *)

(** One call from the window into a collaborator. *)
Inductive Action : Type :=
| XReq (r : xproto.Request)
| LcSetVisible (b : bool)
| LcSendEvent.

(** The answers of the collaborators.  Each oracle is given the history up to
    and including the call it answers: [x_check] is [cookie.Check()] of a
    checked request ([nil] or the server's error), [x_input_focus] and
    [x_translate] are the [Reply()] of the two queries, [x_default_screen] is
    [xproto.Setup(xc).DefaultScreen(xc)], [lifecycler_emit] is the event
    [lifecycler.State.SendEvent] sends to the window, if any, and
    [KeyModifiers] is [x11key.KeyModifiers]. *)
Record Env : Type := {
  x_check : list Action -> option error;
  x_input_focus : list Action -> error + xproto.GetInputFocusReply;
  x_translate : list Action -> error + xproto.TranslateCoordinatesReply;
  x_default_screen : xproto.ScreenInfo;
  lifecycler_emit : list Action -> option lifecycle.Event;
  KeyModifiers : Z -> Z
}.

(** ** The window *)

Record screenImpl : Type := {
  xsi : xproto.ScreenInfo;
  atomNetActiveWindow : xproto.Atom;
  atomNetWMName : xproto.Atom;
  atomUTF8String : xproto.Atom;
  pixelsPerPt : float32;
  cursorCache : gmap Z xproto.Cursor
}.

(** [Deque] is the embedded [event.Deque]; [w.lifecycler] and the connection
    [w.s.xc] are part of the environment; [w.mu] appears where calls are
    interleaved. *)
Record windowImpl : Type := {
  s : screenImpl;
  xw : xproto.Window;
  xg : xproto.Gcontext;
  xp : Z;
  Deque : list QEvent;
  width : Z;
  height : Z;
  released : bool
}.

Definition set_Deque (q : list QEvent) (w : windowImpl) : windowImpl :=
  {| s := s w; xw := xw w; xg := xg w; xp := xp w; Deque := q;
     width := width w; height := height w; released := released w |}.

Definition set_size (nw nh : Z) (w : windowImpl) : windowImpl :=
  {| s := s w; xw := xw w; xg := xg w; xp := xp w; Deque := Deque w;
     width := nw; height := nh; released := released w |}.

Definition set_released (b : bool) (w : windowImpl) : windowImpl :=
  {| s := s w; xw := xw w; xg := xg w; xp := xp w; Deque := Deque w;
     width := width w; height := height w; released := b |}.

(** The window together with the history of its calls into the environment. *)
Record world : Type := { win : windowImpl; history : list Action }.

(** ** The state monad the methods run in *)

Definition M (A : Type) : Type := world -> A * world.

#[global] Instance M_ret : MRet M := fun A a σ => (a, σ).
#[global] Instance M_bind : MBind M :=
  fun A B k m σ => let (a, σ') := m σ in k a σ'.

Definition get_win : M windowImpl := fun σ => (win σ, σ).
Definition mod_win (f : windowImpl -> windowImpl) : M unit :=
  fun σ => (tt, {| win := f (win σ); history := history σ |}).
Definition get_history : M (list Action) := fun σ => (history σ, σ).

(** Performs one call into the environment. *)
Definition act (a : Action) : M unit :=
  fun σ => (tt, {| win := win σ; history := history σ ++ [a] |}).

(** Modelled from the spec: [event.Deque.Send], whose package
    (shiny/driver/internal/event) is not among the sources.  The queue is
    "an ordered, unbounded, producer/consumer-safe sequence of normalized
    events ..., FIFO": [w.Send(e)] puts [e] at the back. *)
Definition Send (e : QEvent) : M unit :=
  mod_win (fun w => set_Deque (Deque w ++ [e]) w).

Definition result {A} (m : M A) (σ : world) : A := fst (m σ).
Definition after {A} (m : M A) (σ : world) : world := snd (m σ).

(** The events a run added to the queue. *)
Definition enqueued {A} (m : M A) (σ : world) : list QEvent :=
  drop (length (Deque (win σ))) (Deque (win (after m σ))).

(** ** The methods of [windowImpl] *)

Section Methods.
Variable env : Env.

(** A request cookie: the history at the moment the request went out. *)
Definition Cookie : Type := list Action.

(** Puts a request on the wire and hands back its cookie. *)
Definition send_request (r : xproto.Request) : M Cookie :=
  act (XReq r) ;; get_history.

Definition Check (c : Cookie) : option error := x_check env c.

(** [w.lifecycler.SetVisible(b)] *)
Definition lifecycler_SetVisible (b : bool) : M unit := act (LcSetVisible b).

(** Modelled from the spec: [lifecycler.State.SendEvent], whose package
    (shiny/driver/internal/lifecycler) is not among the sources.  The window
    asks the state machine "to emit any resulting transition event into the
    same window": [w.lifecycler.SendEvent(w, nil)] is one call, after which
    the event the state machine chooses, if any, is sent to [w]. *)
Definition lifecycler_SendEvent : M unit :=
  act LcSendEvent ;;
  h ← get_history;
  match lifecycler_emit env h with
  | Some e => Send (EvLifecycle e)
  | None => mret tt
  end.

(** [func (w *windowImpl) Release()], one call run without interruption. *)
Definition Release : M unit :=
  w ← get_win;
  let was_released := released w in
  mod_win (set_released true) ;;
  if was_released then mret tt
  else
    act (XReq (xproto.FreePicture (xp w))) ;;
    act (XReq (xproto.FreeGC (xg w))) ;;
    act (XReq (xproto.DestroyWindow (xw w))).

Definition SetTitle (title : string) : M (option error) :=
  w ← get_win;
  let buf := list_byte_of_string title in
  c ← send_request
        (xproto.ChangePropertyChecked xproto.PropModeReplace (xw w)
           (atomNetWMName (s w)) (atomUTF8String (s w)) 8
           (uint32 (Z.of_nat (length buf))) buf);
  mret (Check c).

Definition SetCursor (cursor : screen.Cursor) : M (option error) :=
  w ← get_win;
  match cursorCache (s w) !! cursor with
  | Some cursorId =>
      act (XReq (xproto.ChangeWindowAttributes (xw w) xproto.CwCursor
                   [uint32 cursorId]))
  | None => mret tt
  end ;;
  mret None.

Definition translateToScreen (screen : xproto.ScreenInfo) (p : image.Point)
  : M (image.Point * option error) :=
  w ← get_win;
  tcc ← send_request
          (xproto.TranslateCoordinates (xw w) (xproto.Root screen)
             (int16 (image.X p)) (int16 (image.Y p)));
  match x_translate env tcc with
  | inl err => mret ({| image.X := 0; image.Y := 0 |}, Some err)
  | inr tcr =>
      mret ({| image.X := int (xproto.DstX tcr);
               image.Y := int (xproto.DstY tcr) |}, None)
  end.

Definition WarpMouse (p : image.Point) : M (option error) :=
  w ← get_win;
  c ← send_request xproto.GetInputFocus;
  match x_input_focus env c with
  | inl err => mret (Some err)
  | inr gifr =>
      if negb (xproto.Focus gifr =? xw w) then mret None
      else
        let screen := x_default_screen env in
        tr ← translateToScreen screen p;
        match snd tr with
        | Some err => mret (Some err)
        | None =>
            let tp := fst tr in
            wpc ← send_request
                    (xproto.WarpPointerChecked 0 (xproto.Root screen) 0 0 0 0
                       (int16 (image.X tp)) (int16 (image.Y tp)));
            mret (Check wpc)
        end
  end.

Definition Raise : M (option error) :=
  w ← get_win;
  let screen := x_default_screen env in
  let ev :=
    {| xproto.Format := 32;
       xproto.Window_ := xw w;
       xproto.Type_ := atomNetActiveWindow (s w);
       xproto.Data32 := [0; uint32 xproto.TimeCurrentTime; uint32 0; 0; 0] |} in
  c1 ← send_request
         (xproto.SendEventChecked false (xproto.Root screen)
            (Z.lor xproto.EventMaskSubstructureRedirect
                   xproto.EventMaskSubstructureNotify) ev);
  let _ := Check c1 in
  c2 ← send_request (xproto.MapWindowChecked (xw w));
  let _ := Check c2 in
  mret None.

(** The boolean handed to [SetVisible]. *)
Definition viewable (ev : xproto.ConfigureNotifyEvent) : bool :=
  (int_add (int (xproto.X ev)) (int (xproto.Width ev)) >? 0)
  && (int_add (int (xproto.Y ev)) (int (xproto.Height ev)) >? 0).

Definition handleConfigureNotify (ev : xproto.ConfigureNotifyEvent) : M unit :=
  lifecycler_SetVisible (viewable ev) ;;
  lifecycler_SendEvent ;;
  let newWidth := int (xproto.Width ev) in
  let newHeight := int (xproto.Height ev) in
  w ← get_win;
  if (width w =? newWidth) && (height w =? newHeight) then mret tt
  else
    mod_win (set_size newWidth newHeight) ;;
    Send (EvSize {| size.WidthPx := newWidth;
                    size.HeightPx := newHeight;
                    size.WidthPt := geom.Pt_of_int newWidth;
                    size.HeightPt := geom.Pt_of_int newHeight;
                    size.PixelsPerPt := pixelsPerPt (s w) |}).

Definition handleExpose : M unit := Send EvPaint.

(** The [switch btn] of [handleMouse]. *)
Definition remap_button (btn : mouse.Button) : mouse.Button :=
  if btn =? 4 then mouse.ButtonWheelUp
  else if btn =? 5 then mouse.ButtonWheelDown
  else if btn =? 6 then mouse.ButtonWheelLeft
  else if btn =? 7 then mouse.ButtonWheelRight
  else btn.

(** The [if btn.IsWheel()] block: [None] is its early return, [Some d] the
    direction the event goes out with. *)
Definition wheel_direction (btn : mouse.Button) (dir : mouse.Direction)
  : option mouse.Direction :=
  if mouse.IsWheel btn then
    if negb (dir =? mouse.DirPress) then None else Some mouse.DirStep
  else Some dir.

Definition handleMouse (x y : Z) (b : Z) (state : Z) (dir : mouse.Direction)
  : M unit :=
  let btn := remap_button (int32 b) in
  match wheel_direction btn dir with
  | None => mret tt
  | Some dir =>
      Send (EvMouse {| mouse.X := float32_of_int x;
                       mouse.Y := float32_of_int y;
                       mouse.Button_ := btn;
                       mouse.Modifiers := KeyModifiers env state;
                       mouse.Direction_ := dir |})
  end.

Definition AbsolutePosition : M (Z * Z) :=
  w ← get_win;
  c ← send_request
        (xproto.TranslateCoordinates (xw w) (xproto.Root (xsi (s w))) 0 0);
  match x_translate env c with
  | inr translateReply =>
      mret (int (xproto.DstX translateReply), int (xproto.DstY translateReply))
  | inl _ => mret (0, 0)
  end.

End Methods.

(** [n] calls of [Release], one after the other. *)
Fixpoint Release_times (n : nat) : M unit :=
  match n with
  | O => mret tt
  | S n => Release ;; Release_times n
  end.

(** The three frees, in the order [Release] issues them. *)
Definition frees (w : windowImpl) : list Action :=
  [XReq (xproto.FreePicture (xp w)); XReq (xproto.FreeGC (xg w));
   XReq (xproto.DestroyWindow (xw w))].

(** ** [Release] called from several goroutines

    Each call of [Release] is a little program over the shared window; a
    schedule picks which call takes the next step.  [w.mu] is what keeps the
    read and the write of [w.released] together. *)

(** Where a call of [Release] stands; the local [released] is carried along
    from the line that assigns it. *)
Inductive pc : Type :=
| AtLock                          (* w.mu.Lock() *)
| AtRead                          (* released := w.released *)
| AtWrite (was_released : bool)   (* w.released = true *)
| AtUnlock (was_released : bool)  (* w.mu.Unlock() *)
| AtBranch (was_released : bool)  (* if released { return } *)
| AtFreePicture                   (* render.FreePicture(w.s.xc, w.xp) *)
| AtFreeGC                        (* xproto.FreeGC(w.s.xc, w.xg) *)
| AtDestroyWindow                 (* xproto.DestroyWindow(w.s.xc, w.xw) *)
| Returned (was_released : bool).

(** [mu] tells whether [w.mu] is held; [log] tells which call issued which
    request, in the order the connection saw them. *)
Record system : Type := {
  sys_win : windowImpl;
  mu : bool;
  calls : list pc;
  log : list (nat * Action)
}.

Definition goto (i : nat) (p : pc) (σ : system) : system :=
  {| sys_win := sys_win σ; mu := mu σ; calls := <[i := p]> (calls σ); log := log σ |}.

Definition set_mu (b : bool) (σ : system) : system :=
  {| sys_win := sys_win σ; mu := b; calls := calls σ; log := log σ |}.

Definition sys_mod_win (f : windowImpl -> windowImpl) (σ : system) : system :=
  {| sys_win := f (sys_win σ); mu := mu σ; calls := calls σ; log := log σ |}.

Definition emit (i : nat) (r : xproto.Request) (σ : system) : system :=
  {| sys_win := sys_win σ; mu := mu σ; calls := calls σ;
     log := log σ ++ [(i, XReq r)] |}.

(** What call [i] does when it stands at [p].  A call waiting for a held
    mutex and a call that has returned leave the system as it is. *)
Definition perform (i : nat) (p : pc) (σ : system) : system :=
  match p with
  | AtLock => if mu σ then σ else goto i AtRead (set_mu true σ)
  | AtRead => goto i (AtWrite (released (sys_win σ))) σ
  | AtWrite was => goto i (AtUnlock was) (sys_mod_win (set_released true) σ)
  | AtUnlock was => goto i (AtBranch was) (set_mu false σ)
  | AtBranch was => goto i (if was then Returned true else AtFreePicture) σ
  | AtFreePicture =>
      goto i AtFreeGC (emit i (xproto.FreePicture (xp (sys_win σ))) σ)
  | AtFreeGC =>
      goto i AtDestroyWindow (emit i (xproto.FreeGC (xg (sys_win σ))) σ)
  | AtDestroyWindow =>
      goto i (Returned false) (emit i (xproto.DestroyWindow (xw (sys_win σ))) σ)
  | Returned _ => σ
  end.

(** One step of call [i]; an index that names no call changes nothing. *)
Definition step (i : nat) (σ : system) : system :=
  match calls σ !! i with
  | Some p => perform i p σ
  | None => σ
  end.

Definition exec (sched : list nat) (σ : system) : system :=
  fold_left (fun σ i => step i σ) sched σ.

(** The states a schedule goes through, the first one included. *)
Fixpoint states (sched : list nat) (σ : system) : list system :=
  match sched with
  | [] => [σ]
  | i :: rest => σ :: states rest (step i σ)
  end.

(** [w.released] along a schedule. *)
Definition flags (sched : list nat) (σ : system) : list bool :=
  (fun σ => released (sys_win σ)) <$> states sched σ.

(** How often a sequence of flag values goes from false to true. *)
Fixpoint rises (l : list bool) : nat :=
  match l with
  | a :: (b :: _) as t => ((if negb a && b then 1 else 0) + rises t)%nat
  | _ => 0%nat
  end.

(** [n] calls of [Release] about to start on window [w]. *)
Definition init (n : nat) (w : windowImpl) : system :=
  {| sys_win := w; mu := false; calls := replicate n AtLock; log := [] |}.

Definition is_returned (p : pc) : bool :=
  match p with Returned _ => true | _ => false end.

Definition all_returned (σ : system) : bool := forallb is_returned (calls σ).

(** *** What the reachable states have in common *)

Definition in_crit (p : pc) : bool :=
  match p with AtRead | AtWrite _ | AtUnlock _ => true | _ => false end.

(** A call that has not yet set the flag while the flag is still false. *)
Definition early (p : pc) : bool :=
  match p with AtLock | AtRead | AtWrite false => true | _ => false end.

(** The call that found [w.released] false and has set it. *)
Definition winner (p : pc) : bool :=
  match p with
  | AtUnlock false | AtBranch false | AtFreePicture | AtFreeGC
  | AtDestroyWindow | Returned false => true
  | _ => false
  end.

(** A call that found, or can only find, [w.released] true. *)
Definition loser (p : pc) : bool :=
  match p with
  | AtLock | AtRead | AtWrite true | AtUnlock true | AtBranch true
  | Returned true => true
  | _ => false
  end.

(** The frees a call standing at [p] has behind it. *)
Definition freed (w : windowImpl) (p : pc) : list Action :=
  match p with
  | AtFreeGC => take 1 (frees w)
  | AtDestroyWindow => take 2 (frees w)
  | Returned false => frees w
  | _ => []
  end.

(** The steps a call standing at [p] has at most before it. *)
Definition remaining (p : pc) : nat :=
  match p with
  | AtLock => 8 | AtRead => 7 | AtWrite _ => 6 | AtUnlock _ => 5
  | AtBranch _ => 4 | AtFreePicture => 3 | AtFreeGC => 2
  | AtDestroyWindow => 1 | Returned _ => 0
  end%nat.

Definition crit_weight (p : pc) : nat := if in_crit p then 1%nat else 0%nat.

Definition all_ok (P : pc -> bool) (l : list pc) : Prop :=
  forall i p, l !! i = Some p -> P p = true.

Definition others_ok (P : pc -> bool) (j : nat) (l : list pc) : Prop :=
  forall i p, i <> j -> l !! i = Some p -> P p = true.

Definition same_handles (w0 w : windowImpl) : Prop :=
  xp w = xp w0 /\ xg w = xg w0 /\ xw w = xw w0.

(** While the flag is false nothing has been freed and no call is past the
    write; once it is true one call, the winner, accounts for the whole log. *)
Definition phase (w0 : windowImpl) (rel : bool) (cs : list pc)
    (lg : list (nat * Action)) : Prop :=
  if rel then
    exists j pj, cs !! j = Some pj /\ winner pj = true
      /\ lg = pair j <$> freed w0 pj
      /\ others_ok loser j cs
  else lg = [] /\ all_ok early cs.

(** What holds of every state [n] calls on window [w0] can reach. *)
Definition Inv (n : nat) (w0 : windowImpl) (σ : system) : Prop :=
  length (calls σ) = n
  /\ same_handles w0 (sys_win σ)
  /\ sum_list_with crit_weight (calls σ) = (if mu σ then 1 else 0)%nat
  /\ phase w0 (released (sys_win σ)) (calls σ) (log σ).

(** ** Vocabulary of the statements *)

(** Replies carry int16 coordinates. *)
Definition Env_wf (env : Env) : Prop :=
  forall h r, x_translate env h = inr r ->
    is_int16 (xproto.DstX r) /\ is_int16 (xproto.DstY r).

(** The client message [Raise] sends to the root window. *)
Definition raise_message (w : windowImpl) : xproto.ClientMessageEvent :=
  {| xproto.Format := 32;
     xproto.Window_ := xw w;
     xproto.Type_ := atomNetActiveWindow (s w);
     xproto.Data32 := [0; 0; 0; 0; 0] |}.

Definition raise_send (env : Env) (w : windowImpl) : Action :=
  XReq (xproto.SendEventChecked false (xproto.Root (x_default_screen env))
          (Z.lor xproto.EventMaskSubstructureRedirect
                 xproto.EventMaskSubstructureNotify)
          (raise_message w)).

(** The calls a configure notification makes into the lifecycle state machine. *)
Definition lifecycle_calls (ev : xproto.ConfigureNotifyEvent) : list Action :=
  [LcSetVisible (viewable ev); LcSendEvent].

(** What the lifecycle state machine sends to the window in answer. *)
Definition lifecycle_events (env : Env) (σ : world)
    (ev : xproto.ConfigureNotifyEvent) : list QEvent :=
  match lifecycler_emit env (history σ ++ lifecycle_calls ev) with
  | Some e => [EvLifecycle e]
  | None => []
  end.

(** The size event of a configure notification. *)
Definition size_event (w : windowImpl) (ev : xproto.ConfigureNotifyEvent) : size.Event :=
  {| size.WidthPx := xproto.Width ev;
     size.HeightPx := xproto.Height ev;
     size.WidthPt := geom.Pt_of_int (xproto.Width ev);
     size.HeightPt := geom.Pt_of_int (xproto.Height ev);
     size.PixelsPerPt := pixelsPerPt (s w) |}.

Definition same_size (w : windowImpl) (ev : xproto.ConfigureNotifyEvent) : bool :=
  (width w =? xproto.Width ev) && (height w =? xproto.Height ev).

Definition converts_exactly (n : Z) : bool :=
  match float32_to_Z (float32_of_int n) with
  | Some m => m =? n
  | None => false
  end.

(** [converts_exactly] on the [k] integers from [n] on. *)
Fixpoint exact_from (k : nat) (n : Z) : bool :=
  match k with
  | O => true
  | S k => converts_exactly n && exact_from k (n + 1)
  end.

(** ** Sample windows, environments and notifications *)

Definition sample_screen : screenImpl :=
  {| xsi := {| xproto.Root := 1; xproto.RootDepth := 24 |};
     atomNetActiveWindow := 300;
     atomNetWMName := 301;
     atomUTF8String := 302;
     pixelsPerPt := float32_of_int 2;
     cursorCache := {[ 1 := 77 ]} |}.

Definition sample_window : windowImpl :=
  {| s := sample_screen; xw := 10; xg := 11; xp := 12; Deque := [];
     width := 800; height := 600; released := false |}.

Definition sample_world : world := {| win := sample_window; history := [] |}.

(** A server that accepts everything; the window has the focus. *)
Definition quiet_env : Env :=
  {| x_check := fun _ => None;
     x_input_focus := fun _ => inr {| xproto.Focus := 10 |};
     x_translate := fun _ => inr {| xproto.DstX := 105; xproto.DstY := 207 |};
     x_default_screen := {| xproto.Root := 1; xproto.RootDepth := 24 |};
     lifecycler_emit := fun _ => None;
     KeyModifiers := fun _ => 0 |}.

(** A server that rejects every checked request and fails every reply. *)
Definition rejecting_env : Env :=
  {| x_check := fun _ => Some (XError "BadWindow");
     x_input_focus := fun _ => inl (XError "BadWindow");
     x_translate := fun _ => inl (XError "BadWindow");
     x_default_screen := {| xproto.Root := 1; xproto.RootDepth := 24 |};
     lifecycler_emit := fun h => Some {| lifecycle.From := 1; lifecycle.To := 2 |};
     KeyModifiers := fun _ => 0 |}.

(** The focus is on another window; everything after would fail. *)
Definition unfocused_env : Env :=
  {| x_check := x_check rejecting_env;
     x_input_focus := fun _ => inr {| xproto.Focus := 99 |};
     x_translate := x_translate rejecting_env;
     x_default_screen := x_default_screen rejecting_env;
     lifecycler_emit := lifecycler_emit rejecting_env;
     KeyModifiers := KeyModifiers rejecting_env |}.

Definition resize_800x600_to_1024x768 : xproto.ConfigureNotifyEvent :=
  {| xproto.X := 0; xproto.Y := 0; xproto.Width := 1024; xproto.Height := 768 |}.

Definition configure_same_size_offscreen : xproto.ConfigureNotifyEvent :=
  {| xproto.X := -900; xproto.Y := 20; xproto.Width := 800; xproto.Height := 600 |}.

(** Two calls of [Release] taking turns. *)
Definition two_calls_interleaved : list nat :=
  [0; 1; 0; 0; 1; 0; 1; 0; 1; 0; 1; 0; 1; 0; 1; 1]%nat.

(** ** Sequences of handler calls and method calls *)

(** A call of one of the notification handlers. *)
Inductive HandlerCall : Type :=
| CallConfigureNotify (ev : xproto.ConfigureNotifyEvent)
| CallExpose
| CallMouse (x y b state : Z) (dir : mouse.Direction).

Definition call_handler (env : Env) (c : HandlerCall) : M unit :=
  match c with
  | CallConfigureNotify ev => handleConfigureNotify env ev
  | CallExpose => handleExpose
  | CallMouse x y b state dir => handleMouse env x y b state dir
  end.

(** The handlers called one after the other. *)
Fixpoint call_handlers (env : Env) (cs : list HandlerCall) : M unit :=
  match cs with
  | [] => mret tt
  | c :: cs => call_handler env c ;; call_handlers env cs
  end.






(** The (width, height) of a configure notification. *)
Definition dims (ev : xproto.ConfigureNotifyEvent) : Z * Z :=
  (xproto.Width ev, xproto.Height ev).

Definition same_dims (a b : Z * Z) : bool :=
  (fst a =? fst b) && (snd a =? snd b).

(** The sizes of [l] that differ from the one before them, [cur] being the
    one before the first. *)
Fixpoint changes (cur : Z * Z) (l : list (Z * Z)) : list (Z * Z) :=
  match l with
  | [] => []
  | d :: l => if same_dims d cur then changes cur l else d :: changes d l
  end.

(** The sizes the configure notifications among [cs] carry. *)
Definition configure_dims (cs : list HandlerCall) : list (Z * Z) :=
  omap (fun c => match c with
                 | CallConfigureNotify ev => Some (dims ev)
                 | _ => None
                 end) cs.

(** The pixel sizes of the size events in a queue. *)
Definition size_dims (q : list QEvent) : list (Z * Z) :=
  omap (fun e => match e with
                 | EvSize e => Some (size.WidthPx e, size.HeightPx e)
                 | _ => None
                 end) q.

(** Configure notifications carry uint16 sizes. *)
Definition wf_call (c : HandlerCall) : Prop :=
  match c with
  | CallConfigureNotify ev =>
      is_uint16 (xproto.Width ev) /\ is_uint16 (xproto.Height ev)
  | _ => True
  end.

(** Resize, repeat the size at another place, expose, click, resize back. *)
Definition sample_calls : list HandlerCall :=
  [CallConfigureNotify resize_800x600_to_1024x768;
   CallConfigureNotify {| xproto.X := 30; xproto.Y := 40;
                          xproto.Width := 1024; xproto.Height := 768 |};
   CallExpose;
   CallMouse 3 4 1 0 mouse.DirPress;
   CallConfigureNotify configure_same_size_offscreen].

(** A window that has been released. *)
Definition released_window : windowImpl := set_released true sample_window.

(** The mutex is held exactly when one call stands between Lock and Unlock. *)
Definition Mutex_inv (σ : system) : Prop :=
  sum_list_with crit_weight (calls σ) = (if mu σ then 1 else 0)%nat.

(** What holds of every state calls on an already released window can reach. *)
Definition Inv_released (w0 : windowImpl) (σ : system) : Prop :=
  sys_win σ = w0 /\ log σ = [] /\ all_ok loser (calls σ).

(** * Properties *)

Ltac run :=
  unfold result, after, enqueued, send_request, act, get_history,
    get_win, mod_win, Send, Check, mbind, M_bind, mret, M_ret; simpl.

(** ** Conversions that lose nothing *)

Lemma wrap_signed_id (w n : Z) :
  0 < w -> - 2 ^ (w - 1) <= n < 2 ^ (w - 1) -> wrap_signed w n = n.
Proof.
  intros Hw Hn. unfold wrap_signed.
  assert (E : 2 ^ w = 2 * 2 ^ (w - 1)).
  { replace w with (Z.succ (w - 1)) at 1 by lia. apply Z.pow_succ_r. lia. }
  rewrite Z.mod_small; lia.
Qed.

Lemma int_small (n : Z) : - 2 ^ 31 <= n < 2 ^ 31 -> int n = n.
Proof.
  intros H. apply wrap_signed_id; [reflexivity|].
  change (2 ^ (int_bits - 1)) with 9223372036854775808.
  change (2 ^ 31) with 2147483648 in H. lia.
Qed.

Lemma int_int16 (n : Z) : is_int16 n -> int n = n.
Proof. intros H. apply int_small. unfold is_int16 in H. lia. Qed.

Lemma int_uint16 (n : Z) : is_uint16 n -> int n = n.
Proof. intros H. apply int_small. unfold is_uint16 in H. lia. Qed.

Lemma int16_id (n : Z) : is_int16 n -> int16 n = n.
Proof.
  intros H. apply wrap_signed_id; [reflexivity|].
  change (2 ^ (16 - 1)) with 32768. exact H.
Qed.

Lemma int32_uint8 (n : Z) : is_uint8 n -> int32 n = n.
Proof.
  intros H. apply wrap_signed_id; [reflexivity|].
  change (2 ^ (32 - 1)) with 2147483648. unfold is_uint8 in H. lia.
Qed.

Example int16_wraps : int16 40000 = -25536.
Proof. reflexivity. Qed.

Lemma exact_from_spec (k : nat) : forall n m,
  exact_from k n = true -> n <= m < n + Z.of_nat k -> converts_exactly m = true.
Proof.
  induction k as [|k IH]; intros n m H Hm; [lia|].
  simpl in H. apply andb_true_iff in H as [H0 H1].
  destruct (Z.eq_dec m n) as [->|Hne]; [exact H0|].
  apply (IH (n + 1)); [exact H1|lia].
Qed.

Lemma exact_uint16 : exact_from (Z.to_nat 65536) 0 = true.
Proof. vm_compute. reflexivity. Qed.

(** Every uint16 value converts to float32 without rounding. *)
Lemma float32_of_uint16_exact (n : Z) :
  is_uint16 n -> float32_to_Z (float32_of_int n) = Some n.
Proof.
  intros H. unfold is_uint16 in H.
  pose proof (exact_from_spec (Z.to_nat 65536) 0 n exact_uint16) as E.
  rewrite Z2Nat.id in E by lia. unfold converts_exactly in E.
  destruct (float32_to_Z (float32_of_int n)) as [m|].
  - f_equal. apply Z.eqb_eq, E. lia.
  - discriminate E. lia.
Qed.

(** Past 24 bits the conversion rounds. *)
Example float32_of_int_rounds :
  float32_to_Z (float32_of_int 16777217) = Some 16777216.
Proof. reflexivity. Qed.

Lemma quiet_env_wf : Env_wf quiet_env.
Proof. intros h r [= <-]. unfold is_int16. simpl. lia. Qed.

Lemma rejecting_env_wf : Env_wf rejecting_env.
Proof. intros h r [=]. Qed.

(** ** AbsolutePosition *)

(** C6. [AbsolutePosition] issues one coordinate-translation request from the
    window's origin to the root window; when the reply arrives its
    destination coordinates are returned, and when the reply is an error the
    call returns (0, 0): its result type has no room for the error. *)
Theorem AbsolutePosition_lossy (env : Env) (σ : world) (Hwf : Env_wf env) :
  let req := XReq (xproto.TranslateCoordinates (xw (win σ))
                     (xproto.Root (xsi (s (win σ)))) 0 0) in
  history (after (AbsolutePosition env) σ) = history σ ++ [req]
  /\ win (after (AbsolutePosition env) σ) = win σ
  /\ result (AbsolutePosition env) σ =
       match x_translate env (history σ ++ [req]) with
       | inr reply => (xproto.DstX reply, xproto.DstY reply)
       | inl _ => (0, 0)
       end.
Proof.
  intros req. unfold AbsolutePosition. run. fold req.
  destruct (x_translate env (history σ ++ [req])) as [e|r] eqn:E; simpl.
  - done.
  - destruct (Hwf _ _ E) as [Hx Hy]. by rewrite !int_int16.
Qed.

Lemma AbsolutePosition_lossy_witness :
  result (AbsolutePosition quiet_env) sample_world = (105, 207)
  /\ result (AbsolutePosition rejecting_env) sample_world = (0, 0).
Proof.
  split.
  - exact (proj2 (proj2 (AbsolutePosition_lossy quiet_env sample_world quiet_env_wf))).
  - exact (proj2 (proj2 (AbsolutePosition_lossy rejecting_env sample_world rejecting_env_wf))).
Defined.

(** ** SetTitle *)

(** C8. For every string [title], [SetTitle] issues exactly one request, a
    checked property change that replaces the window-title property
    ([atomNetWMName]) of this window with the bytes of [title], typed with
    the UTF-8 string atom, in 8-bit format; it returns what the check of that
    request returns: the server's error, or nil. *)
Theorem SetTitle_request (env : Env) (σ : world) (title : string) :
  let w := win σ in
  let buf := list_byte_of_string title in
  let req := XReq (xproto.ChangePropertyChecked xproto.PropModeReplace (xw w)
                     (atomNetWMName (s w)) (atomUTF8String (s w)) 8
                     (uint32 (Z.of_nat (length buf))) buf) in
  history (after (SetTitle env title) σ) = history σ ++ [req]
  /\ string_of_list_byte buf = title
  /\ result (SetTitle env title) σ = x_check env (history σ ++ [req])
  /\ win (after (SetTitle env title) σ) = win σ.
Proof.
  intros w buf req. unfold SetTitle. run.
  repeat split. apply string_of_list_byte_of_string.
Qed.

Example SetTitle_Example :
  SetTitle rejecting_env "Example" sample_world =
    (Some (XError "BadWindow"),
     {| win := sample_window;
        history := [XReq (xproto.ChangePropertyChecked 0 10 301 302 8 7
                            [x45; x78; x61; x6d; x70; x6c; x65])] |}).
Proof. reflexivity. Qed.

(** ** SetCursor *)

(** C10. [SetCursor] returns nil for every cursor token and whatever the
    server does.  When the token is in the session's cursor cache, one
    unchecked attribute-change request installing the cached cursor is
    issued and its outcome is never asked for; when it is not, nothing is
    issued. *)
Theorem SetCursor_nil (σ : world) (cursor : screen.Cursor) :
  let w := win σ in
  result (SetCursor cursor) σ = None
  /\ history (after (SetCursor cursor) σ) =
       history σ ++
       match cursorCache (s w) !! cursor with
       | Some cursorId =>
           [XReq (xproto.ChangeWindowAttributes (xw w) xproto.CwCursor
                    [uint32 cursorId])]
       | None => []
       end
  /\ win (after (SetCursor cursor) σ) = win σ.
Proof.
  intros w. unfold SetCursor. run. subst w.
  destruct (cursorCache (s (win σ)) !! cursor); simpl.
  - done.
  - by rewrite app_nil_r; destruct σ.
Qed.

(** On a cache hit the request goes out and the caller gets nil; [SetCursor]
    never consults the server's answer. *)
Example SetCursor_hit :
  result (SetCursor 1) sample_world = None
  /\ history (after (SetCursor 1) sample_world) =
       [XReq (xproto.ChangeWindowAttributes 10 xproto.CwCursor [77])].
Proof. split; reflexivity. Qed.

Example SetCursor_miss :
  result (SetCursor 2) sample_world = None
  /\ history (after (SetCursor 2) sample_world) = [].
Proof. split; reflexivity. Qed.

(** ** WarpMouse *)

Lemma translateToScreen_run (env : Env) (scr : xproto.ScreenInfo)
    (p : image.Point) (σ : world) :
  let req := XReq (xproto.TranslateCoordinates (xw (win σ)) (xproto.Root scr)
                     (int16 (image.X p)) (int16 (image.Y p))) in
  translateToScreen env scr p σ =
    (match x_translate env (history σ ++ [req]) with
     | inl err => ({| image.X := 0; image.Y := 0 |}, Some err)
     | inr tcr => ({| image.X := int (xproto.DstX tcr);
                      image.Y := int (xproto.DstY tcr) |}, None)
     end,
     {| win := win σ; history := history σ ++ [req] |}).
Proof.
  intros req. unfold translateToScreen. run. fold req.
  by destruct (x_translate env (history σ ++ [req])).
Qed.

(** C5. [WarpMouse p] first asks for the input focus.  When that reply is an
    error the call returns it; when the focus is on another window the call
    returns nil; in both cases nothing else is issued.  Otherwise the point is
    translated to root coordinates: when that reply is an error the call
    returns it and no pointer warp is issued; otherwise one checked
    pointer-warp request to the translated coordinates is issued and the
    result of its check is returned. *)
Theorem WarpMouse_cases (env : Env) (σ : world) (p : image.Point)
    (Hwf : Env_wf env) :
  let w := win σ in
  let root := xproto.Root (x_default_screen env) in
  let focus := XReq xproto.GetInputFocus in
  let translate :=
    XReq (xproto.TranslateCoordinates (xw w) root
            (int16 (image.X p)) (int16 (image.Y p))) in
  let res := result (WarpMouse env p) σ in
  let out := history (after (WarpMouse env p) σ) in
  win (after (WarpMouse env p) σ) = w
  /\ match x_input_focus env (history σ ++ [focus]) with
     | inl err => res = Some err /\ out = history σ ++ [focus]
     | inr gifr =>
         if xproto.Focus gifr =? xw w then
           match x_translate env (history σ ++ [focus; translate]) with
           | inl err => res = Some err /\ out = history σ ++ [focus; translate]
           | inr tcr =>
               let warp :=
                 XReq (xproto.WarpPointerChecked 0 root 0 0 0 0
                         (xproto.DstX tcr) (xproto.DstY tcr)) in
               out = history σ ++ [focus; translate; warp]
               /\ res = x_check env (history σ ++ [focus; translate; warp])
           end
         else res = None /\ out = history σ ++ [focus]
     end.
Proof.
  intros w root focus translate res out.
  subst res out. unfold WarpMouse. run. fold focus.
  destruct (x_input_focus env (history σ ++ [focus])) as [err|gifr]; simpl.
  { done. }
  fold w. destruct (xproto.Focus gifr =? xw w); simpl; [|done].
  rewrite translateToScreen_run. simpl. fold w root translate.
  rewrite <- (app_assoc (history σ) [focus] [translate]). simpl.
  destruct (x_translate env (history σ ++ [focus; translate])) as [err|tcr] eqn:E;
    simpl.
  { done. }
  destruct (Hwf _ _ E) as [Hx Hy].
  rewrite !int_int16, !int16_id by assumption.
  rewrite <- app_assoc. simpl. done.
Qed.

Lemma WarpMouse_cases_witness :
  result (WarpMouse quiet_env {| image.X := 5; image.Y := 7 |}) sample_world = None
  /\ history (after (WarpMouse quiet_env {| image.X := 5; image.Y := 7 |}) sample_world) =
       [XReq xproto.GetInputFocus;
        XReq (xproto.TranslateCoordinates 10 1 5 7);
        XReq (xproto.WarpPointerChecked 0 1 0 0 0 0 105 207)].
Proof.
  pose proof (WarpMouse_cases quiet_env sample_world
                {| image.X := 5; image.Y := 7 |} quiet_env_wf) as H.
  simpl in H. destruct H as (_ & Hout & Hres). split.
  - exact Hres.
  - exact Hout.
Defined.

Example WarpMouse_unfocused :
  WarpMouse unfocused_env {| image.X := 5; image.Y := 7 |} sample_world =
    (None, {| win := sample_window; history := [XReq xproto.GetInputFocus] |}).
Proof. reflexivity. Qed.

Example WarpMouse_focus_error :
  WarpMouse rejecting_env {| image.X := 5; image.Y := 7 |} sample_world =
    (Some (XError "BadWindow"),
     {| win := sample_window; history := [XReq xproto.GetInputFocus] |}).
Proof. reflexivity. Qed.

(** ** Raise *)

(** C7, as the claim has it, fails: when the server rejects the client-message
    send, [Raise] still returns nil. *)
Lemma Raise_send_rejected :
  ~ (forall (env : Env) (σ : world),
       result (Raise env) σ = x_check env (history σ ++ [raise_send env (win σ)])).
Proof.
  intros H. specialize (H rejecting_env sample_world). discriminate H.
Qed.

(** C7, amended. [Raise] returns nil on every invocation.  It issues the
    checked client-message send to the root window and then the checked
    map-window request, waits for both checks, and drops what they return:
    neither a rejected send nor a rejected map reaches the caller. *)
Theorem Raise_nil (env : Env) (σ : world) :
  let w := win σ in
  result (Raise env) σ = None
  /\ history (after (Raise env) σ) =
       history σ ++ [raise_send env w; XReq (xproto.MapWindowChecked (xw w))]
  /\ win (after (Raise env) σ) = w.
Proof.
  intros w. unfold Raise. run. rewrite <- app_assoc. done.
Qed.

Example Raise_rejecting :
  x_check rejecting_env [raise_send rejecting_env sample_window]
    = Some (XError "BadWindow")
  /\ result (Raise rejecting_env) sample_world = None.
Proof. split; reflexivity. Qed.

(** ** handleMouse *)

Lemma remap_button_wheel (b : Z) :
  4 <= b <= 7 ->
  mouse.IsWheel (remap_button b) = true
  /\ remap_button b = nth (Z.to_nat (b - 4))
       [mouse.ButtonWheelUp; mouse.ButtonWheelDown;
        mouse.ButtonWheelLeft; mouse.ButtonWheelRight] 0.
Proof.
  intros H.
  assert (b = 4 \/ b = 5 \/ b = 6 \/ b = 7) as [-> | [-> | [-> | ->]]] by lia;
    split; reflexivity.
Qed.

Lemma remap_button_other (b : Z) :
  0 <= b -> ~ 4 <= b <= 7 ->
  remap_button b = b /\ mouse.IsWheel (remap_button b) = false.
Proof.
  intros H0 H. unfold remap_button.
  destruct (Z.eqb_spec b 4); [lia|]. destruct (Z.eqb_spec b 5); [lia|].
  destruct (Z.eqb_spec b 6); [lia|]. destruct (Z.eqb_spec b 7); [lia|].
  split; [done|]. unfold mouse.IsWheel. apply Z.ltb_ge. exact H0.
Qed.

(** C3. For every button notification: raw buttons 4, 5, 6 and 7 become
    wheel-up, wheel-down, wheel-left and wheel-right; for these a direction
    other than press enqueues nothing and a press enqueues exactly one mouse
    event whose direction is step; every other raw button enqueues exactly
    one mouse event with the raw button and the raw direction.  No request
    goes out. *)
Theorem handleMouse_cases (env : Env) (σ : world) (x y b state : Z)
    (dir : mouse.Direction) (Hb : is_uint8 b) :
  let event btn d :=
    EvMouse {| mouse.X := float32_of_int x; mouse.Y := float32_of_int y;
               mouse.Button_ := btn; mouse.Modifiers := KeyModifiers env state;
               mouse.Direction_ := d |} in
  let q := Deque (win (after (handleMouse env x y b state dir) σ)) in
  (remap_button (int32 4) = mouse.ButtonWheelUp
   /\ remap_button (int32 5) = mouse.ButtonWheelDown
   /\ remap_button (int32 6) = mouse.ButtonWheelLeft
   /\ remap_button (int32 7) = mouse.ButtonWheelRight)
  /\ (4 <= b <= 7 -> dir <> mouse.DirPress -> q = Deque (win σ))
  /\ (4 <= b <= 7 -> dir = mouse.DirPress ->
        q = Deque (win σ) ++ [event (remap_button (int32 b)) mouse.DirStep])
  /\ (~ 4 <= b <= 7 -> q = Deque (win σ) ++ [event b dir])
  /\ history (after (handleMouse env x y b state dir) σ) = history σ.
Proof.
  intros event q. split; [by repeat split|].
  subst q. unfold handleMouse, wheel_direction. rewrite (int32_uint8 b Hb).
  repeat split.
  - intros H Hd. destruct (remap_button_wheel b H) as [-> _].
    destruct (Z.eqb_spec dir mouse.DirPress); [done|]. by run.
  - intros H ->. destruct (remap_button_wheel b H) as [-> _]. by run.
  - intros H. destruct (remap_button_other b) as [-> ->]; [apply Hb|done|].
    by run.
  - destruct (mouse.IsWheel _); [destruct (negb _)|]; by run.
Qed.

Lemma handleMouse_cases_witness :
  Deque (win (after (handleMouse quiet_env 3 4 5 0 mouse.DirPress) sample_world)) =
    [EvMouse {| mouse.X := float32_of_int 3; mouse.Y := float32_of_int 4;
                mouse.Button_ := mouse.ButtonWheelDown; mouse.Modifiers := 0;
                mouse.Direction_ := mouse.DirStep |}]
  /\ Deque (win (after (handleMouse quiet_env 3 4 5 0 mouse.DirRelease) sample_world)) = []
  /\ Deque (win (after (handleMouse quiet_env 3 4 1 0 mouse.DirRelease) sample_world)) =
    [EvMouse {| mouse.X := float32_of_int 3; mouse.Y := float32_of_int 4;
                mouse.Button_ := mouse.ButtonLeft; mouse.Modifiers := 0;
                mouse.Direction_ := mouse.DirRelease |}].
Proof.
  assert (H5 : is_uint8 5) by (unfold is_uint8; lia).
  assert (H1 : is_uint8 1) by (unfold is_uint8; lia).
  split; [|split].
  - apply (proj1 (proj2 (proj2 (handleMouse_cases quiet_env sample_world 3 4 5 0
                                   mouse.DirPress H5)))); [lia|reflexivity].
  - apply (proj1 (proj2 (handleMouse_cases quiet_env sample_world 3 4 5 0
                           mouse.DirRelease H5))); [lia|discriminate].
  - apply (proj1 (proj2 (proj2 (proj2 (handleMouse_cases quiet_env sample_world 3 4 1 0
                                   mouse.DirRelease H1))))). lia.
Defined.

(** ** handleConfigureNotify *)

Lemma same_size_spec (w : windowImpl) (ev : xproto.ConfigureNotifyEvent) :
  same_size w ev = true <->
  (xproto.Width ev, xproto.Height ev) = (width w, height w).
Proof.
  unfold same_size. rewrite andb_true_iff, !Z.eqb_eq. split.
  - by intros [-> ->].
  - by intros [= -> ->].
Qed.

Lemma handleConfigureNotify_run (env : Env) (σ : world)
    (ev : xproto.ConfigureNotifyEvent) :
  is_uint16 (xproto.Width ev) -> is_uint16 (xproto.Height ev) ->
  let w := win σ in
  handleConfigureNotify env ev σ =
    (tt, {| win :=
              if same_size w ev
              then set_Deque (Deque w ++ lifecycle_events env σ ev) w
              else set_Deque (Deque w ++ lifecycle_events env σ ev
                                ++ [EvSize (size_event w ev)])
                     (set_size (xproto.Width ev) (xproto.Height ev) w);
            history := history σ ++ lifecycle_calls ev |}).
Proof.
  intros Hw Hh w. unfold handleConfigureNotify, lifecycler_SetVisible,
    lifecycler_SendEvent, lifecycle_events, same_size, size_event. run.
  rewrite !int_uint16 by assumption. rewrite <- app_assoc. simpl. fold w.
  unfold lifecycle_calls.
  destruct (lifecycler_emit env _) as [e|]; run; fold w.
  - destruct (_ && _); run; [done|]. by rewrite <- app_assoc.
  - destruct (_ && _); run; rewrite ?app_nil_r; [by destruct w|done].
Qed.

(** C2. A configure notification enqueues a size event if and only if its
    (width, height) differs from the stored pair.  When it differs, the queue
    grows by what the lifecycle state machine sends followed by exactly one
    size event with the new pixel width and height and the session's
    [pixelsPerPt], and the stored pair becomes the new one; when it is equal,
    no size event is enqueued and the stored pair stays. *)
Theorem handleConfigureNotify_size (env : Env) (σ : world)
    (ev : xproto.ConfigureNotifyEvent)
    (Hw : is_uint16 (xproto.Width ev)) (Hh : is_uint16 (xproto.Height ev)) :
  let w := win σ in
  let w' := win (after (handleConfigureNotify env ev) σ) in
  let new := (xproto.Width ev, xproto.Height ev) in
  let sizes := List.filter is_size (enqueued (handleConfigureNotify env ev) σ) in
  (sizes <> [] <-> new <> (width w, height w))
  /\ (new <> (width w, height w) ->
        Deque w' = Deque w ++ lifecycle_events env σ ev ++ [EvSize (size_event w ev)]
        /\ sizes = [EvSize (size_event w ev)]
        /\ (width w', height w') = new)
  /\ (new = (width w, height w) ->
        Deque w' = Deque w ++ lifecycle_events env σ ev
        /\ sizes = []
        /\ (width w', height w') = (width w, height w)).
Proof.
  intros w w' new sizes.
  assert (Hlc : List.filter is_size (lifecycle_events env σ ev) = []).
  { unfold lifecycle_events. by destruct (lifecycler_emit env _). }
  subst sizes w'. unfold enqueued, after.
  rewrite (handleConfigureNotify_run env σ ev Hw Hh). simpl. fold w.
  pose proof (same_size_spec w ev) as Hs. fold new in Hs.
  destruct (same_size w ev); simpl.
  - rewrite drop_app_length, Hlc.
    assert (new = (width w, height w)) as E by by apply Hs.
    repeat split; try done; by intros _.
  - rewrite drop_app_length, List.filter_app, Hlc. simpl.
    assert (new <> (width w, height w)) as E.
    { intros E. apply Hs in E. discriminate. }
    repeat split; try done.
Qed.

Lemma handleConfigureNotify_size_witness :
  let σ' := after (handleConfigureNotify quiet_env resize_800x600_to_1024x768) sample_world in
  Deque (win σ') =
    [EvSize {| size.WidthPx := 1024; size.HeightPx := 768;
               size.WidthPt := geom.Pt_of_int 1024;
               size.HeightPt := geom.Pt_of_int 768;
               size.PixelsPerPt := float32_of_int 2 |}]
  /\ (width (win σ'), height (win σ')) = (1024, 768).
Proof.
  assert (Hw : is_uint16 1024) by (unfold is_uint16; lia).
  assert (Hh : is_uint16 768) by (unfold is_uint16; lia).
  destruct (proj1 (proj2 (handleConfigureNotify_size quiet_env sample_world
                             resize_800x600_to_1024x768 Hw Hh))) as (Hq & _ & Hs).
  { simpl. intros [=]. }
  split; [exact Hq | exact Hs].
Defined.

Lemma viewable_spec (ev : xproto.ConfigureNotifyEvent) :
  is_int16 (xproto.X ev) -> is_int16 (xproto.Y ev) ->
  is_uint16 (xproto.Width ev) -> is_uint16 (xproto.Height ev) ->
  viewable ev = (xproto.X ev + xproto.Width ev >? 0)
                && (xproto.Y ev + xproto.Height ev >? 0).
Proof.
  intros HX HY HW HH. unfold viewable, int_add.
  rewrite (int_int16 _ HX), (int_int16 _ HY), (int_uint16 _ HW), (int_uint16 _ HH).
  unfold is_int16, is_uint16 in *.
  rewrite !int_small; [done | | ]; change (2 ^ 31) with 2147483648; lia.
Qed.

(** C4. On every configure notification, whether or not it changes the
    size, the window calls the lifecycle state machine exactly twice:
    first [SetVisible] with [x + width > 0 && y + height > 0] computed from
    the notification, then [SendEvent]. *)
Theorem handleConfigureNotify_lifecycle (env : Env) (σ : world)
    (ev : xproto.ConfigureNotifyEvent)
    (HX : is_int16 (xproto.X ev)) (HY : is_int16 (xproto.Y ev))
    (HW : is_uint16 (xproto.Width ev)) (HH : is_uint16 (xproto.Height ev)) :
  history (after (handleConfigureNotify env ev) σ) =
    history σ ++
    [LcSetVisible ((xproto.X ev + xproto.Width ev >? 0)
                   && (xproto.Y ev + xproto.Height ev >? 0));
     LcSendEvent].
Proof.
  unfold after. rewrite (handleConfigureNotify_run env σ ev HW HH). simpl.
  unfold lifecycle_calls. by rewrite viewable_spec.
Qed.

Lemma handleConfigureNotify_lifecycle_witness :
  history (after (handleConfigureNotify quiet_env configure_same_size_offscreen)
             sample_world) = [LcSetVisible false; LcSendEvent].
Proof.
  apply (handleConfigureNotify_lifecycle quiet_env sample_world
           configure_same_size_offscreen);
    unfold is_int16, is_uint16; simpl; lia.
Defined.

(** ** The point dimensions of a size event *)

(** C9. Every size event the configure handler enqueues has point width and
    height that are the float32 conversions of its pixel width and height
    and denote the same numbers, whatever the session's [pixelsPerPt] is;
    [pixelsPerPt] is copied into the event and enters neither dimension. *)
Theorem size_event_points (env : Env) (σ : world)
    (ev : xproto.ConfigureNotifyEvent) (e : size.Event)
    (Hw : is_uint16 (xproto.Width ev)) (Hh : is_uint16 (xproto.Height ev))
    (He : In (EvSize e) (enqueued (handleConfigureNotify env ev) σ)) :
  float32_to_Z (size.WidthPt e) = Some (size.WidthPx e)
  /\ float32_to_Z (size.HeightPt e) = Some (size.HeightPx e)
  /\ size.WidthPt e = geom.Pt_of_int (size.WidthPx e)
  /\ size.HeightPt e = geom.Pt_of_int (size.HeightPx e)
  /\ size.PixelsPerPt e = pixelsPerPt (s (win σ)).
Proof.
  unfold enqueued, after in He.
  rewrite (handleConfigureNotify_run env σ ev Hw Hh) in He. simpl in He.
  assert (E : e = size_event (win σ) ev).
  { destruct (same_size (win σ) ev); simpl in He;
      rewrite drop_app_length in He; unfold lifecycle_events in He;
      destruct (lifecycler_emit env _); simpl in He;
      repeat (destruct He as [He|He]); try discriminate He; try done;
      by injection He. }
  subst e. simpl. repeat split; by apply float32_of_uint16_exact.
Qed.

Lemma size_event_points_witness :
  let e := {| size.WidthPx := 1024; size.HeightPx := 768;
              size.WidthPt := geom.Pt_of_int 1024;
              size.HeightPt := geom.Pt_of_int 768;
              size.PixelsPerPt := float32_of_int 2 |} in
  In (EvSize e)
     (enqueued (handleConfigureNotify quiet_env resize_800x600_to_1024x768) sample_world)
  /\ float32_to_Z (size.WidthPt e) = Some 1024
  /\ float32_to_Z (size.HeightPt e) = Some 768.
Proof.
  intros e.
  assert (Hw : is_uint16 1024) by (unfold is_uint16; lia).
  assert (Hh : is_uint16 768) by (unfold is_uint16; lia).
  assert (He : In (EvSize e)
     (enqueued (handleConfigureNotify quiet_env resize_800x600_to_1024x768) sample_world))
    by (left; reflexivity).
  destruct (size_event_points quiet_env sample_world resize_800x600_to_1024x768 e
              Hw Hh He) as (H1 & H2 & _).
  split; [exact He|]. split; [exact H1 | exact H2].
Defined.


(** ** Release *)

Local Open Scope nat_scope.

Section Weights.
Variable f : pc -> nat.

Lemma weight_insert (l : list pc) (i : nat) (p q : pc) :
  l !! i = Some p ->
  sum_list_with f (<[i := q]> l) + f p = sum_list_with f l + f q.
Proof.
  revert i. induction l as [|x l IH]; intros [|i] H; simpl in *; try done.
  - injection H as ->. lia.
  - specialize (IH i H). lia.
Qed.

Lemma weight_lookup (l : list pc) (i : nat) (p : pc) :
  l !! i = Some p -> f p <= sum_list_with f l.
Proof.
  revert i. induction l as [|x l IH]; intros [|i] H; simpl in *; try done.
  - injection H as ->. lia.
  - specialize (IH i H). lia.
Qed.

Lemma weight_others (l : list pc) (i j : nat) (p q : pc) :
  l !! i = Some p -> l !! j = Some q -> i <> j ->
  f p + f q <= sum_list_with f l.
Proof.
  revert i j. induction l as [|x l IH]; intros [|i] [|j] Hi Hj Hne;
    simpl in *; try done.
  - injection Hi as ->. pose proof (weight_lookup l j q Hj). lia.
  - injection Hj as ->. pose proof (weight_lookup l i p Hi). lia.
  - assert (i <> j) by lia. specialize (IH i j Hi Hj). lia.
Qed.

Lemma weight_positive (l : list pc) :
  0 < sum_list_with f l -> exists i p, l !! i = Some p /\ 0 < f p.
Proof.
  induction l as [|x l IH]; simpl; intros H; [lia|].
  destruct (f x) as [|k] eqn:E.
  - destruct IH as (i & p & Hi & Hp); [lia|]. by exists (S i), p.
  - exists 0, x. simpl. split; [done|lia].
Qed.

Lemma weight_zero (l : list pc) :
  sum_list_with f l = 0 -> forall i p, l !! i = Some p -> f p = 0.
Proof.
  intros H i p Hi. pose proof (weight_lookup l i p Hi). lia.
Qed.

End Weights.

Lemma all_ok_insert (P : pc -> bool) (l : list pc) (i : nat) (q : pc) :
  all_ok P l -> P q = true -> all_ok P (<[i := q]> l).
Proof.
  intros H Hq k p Hk. destruct (decide (i = k)) as [->|Hne].
  - apply list_lookup_insert_Some in Hk as [(_ & <- & _)|(? & _)]; done.
  - rewrite list_lookup_insert_ne in Hk by done. by apply (H k).
Qed.

Lemma others_ok_insert_self (P : pc -> bool) (l : list pc) (j : nat) (q : pc) :
  others_ok P j l -> others_ok P j (<[j := q]> l).
Proof.
  intros H k p Hne Hk. rewrite list_lookup_insert_ne in Hk by done.
  by apply (H k).
Qed.

Lemma others_ok_insert (P : pc -> bool) (l : list pc) (i j : nat) (q : pc) :
  others_ok P j l -> P q = true -> others_ok P j (<[i := q]> l).
Proof.
  intros H Hq k p Hne Hk. destruct (decide (i = k)) as [->|Hik].
  - apply list_lookup_insert_Some in Hk as [(_ & <- & _)|(? & _)]; done.
  - rewrite list_lookup_insert_ne in Hk by done. by apply (H k).
Qed.

Lemma Inv_init (n : nat) (w : windowImpl) :
  released w = false -> Inv n w (init n w).
Proof.
  intros Hw. unfold Inv, phase, init. simpl. rewrite Hw.
  repeat split.
  - apply length_replicate.
  - induction n; simpl; [done|]. by rewrite IHn.
  - intros i p Hi. apply lookup_replicate in Hi as [-> _]. done.
Qed.

Lemma phase_early (w0 : windowImpl) (cs : list pc) lg (i : nat) (q : pc) :
  phase w0 false cs lg -> early q = true -> phase w0 false (<[i := q]> cs) lg.
Proof. intros [Hl Ha] Hq. split; [done|]. by apply all_ok_insert. Qed.

Lemma phase_true_lookup (w0 : windowImpl) (cs : list pc) lg (i : nat) (p : pc) :
  phase w0 true cs lg -> cs !! i = Some p -> winner p = false -> loser p = true.
Proof.
  intros (j & pj & Hj & Hw & _ & Ho) Hi Hp.
  destruct (decide (i = j)) as [->|Hne]; [congruence|]. by apply (Ho i).
Qed.

Lemma phase_loser (w0 : windowImpl) (cs : list pc) lg (i : nat) (p q : pc) :
  phase w0 true cs lg -> cs !! i = Some p -> winner p = false ->
  loser q = true -> phase w0 true (<[i := q]> cs) lg.
Proof.
  intros (j & pj & Hj & Hw & Hl & Ho) Hi Hp Hq.
  assert (i <> j) by congruence.
  exists j, pj. rewrite list_lookup_insert_ne by done.
  repeat split; try done. by apply others_ok_insert.
Qed.

Lemma phase_winner (w0 : windowImpl) (cs : list pc) lg (i : nat) (p q : pc)
    (extra : list Action) :
  phase w0 true cs lg -> cs !! i = Some p -> loser p = false ->
  winner q = true -> freed w0 q = freed w0 p ++ extra ->
  phase w0 true (<[i := q]> cs) (lg ++ (pair i <$> extra)).
Proof.
  intros (j & pj & Hj & Hw & Hl & Ho) Hi Hp Hq Hf.
  assert (i = j) as ->.
  { destruct (decide (i = j)) as [|Hne]; [done|].
    specialize (Ho i p Hne Hi). congruence. }
  assert (pj = p) as -> by congruence.
  exists j, q. rewrite list_lookup_insert_eq by by eapply lookup_lt_Some.
  repeat split; try done.
  - by rewrite Hl, Hf, fmap_app.
  - by apply others_ok_insert_self.
Qed.

Lemma phase_set (w0 : windowImpl) (cs : list pc) lg (i : nat) (was : bool) :
  phase w0 false cs lg -> cs !! i = Some (AtWrite was) ->
  sum_list_with crit_weight cs <= 1 ->
  was = false /\ phase w0 true (<[i := AtUnlock false]> cs) lg.
Proof.
  intros [Hl Ha] Hi Hc.
  assert (was = false) as ->.
  { specialize (Ha i _ Hi). by destruct was. }
  split; [done|]. exists i, (AtUnlock false).
  rewrite list_lookup_insert_eq by by eapply lookup_lt_Some.
  repeat split; try done.
  apply others_ok_insert_self. intros k q Hne Hk.
  pose proof (weight_others crit_weight cs i k _ q Hi Hk (not_eq_sym Hne)) as Hw.
  specialize (Ha k q Hk).
  destruct q as [| |[]|[]|[]| | | |[]]; simpl in *; try done;
    unfold crit_weight in *; simpl in *; exfalso; lia.
Qed.

Ltac weigh H :=
  let W1 := fresh "W" in let W2 := fresh "W" in
  match type of H with
  | ?l !! ?i = Some ?p =>
      pose proof (fun q => weight_insert crit_weight l i p q H) as W1;
      pose proof (weight_lookup crit_weight l i p H) as W2;
      unfold crit_weight in W1, W2; simpl in W1, W2
  end.

Lemma Inv_step (n : nat) (w0 : windowImpl) (i : nat) (σ : system) :
  Inv n w0 σ -> Inv n w0 (step i σ).
Proof.
  intros (Hlen & Hh & Hmu & Hph). unfold step, perform.
  destruct (calls σ !! i) as [p|] eqn:Hi; [|done].
  pose proof Hh as (Hxp & Hxg & Hxw).
  unfold Inv. weigh Hi. unfold crit_weight in Hmu.
  destruct p as [| |was|was|was| | | |was]; simpl in *.
  - (* w.mu.Lock() *)
    destruct (mu σ) eqn:Em; [by rewrite Em|]. simpl.
    rewrite length_insert. specialize (W AtRead). simpl in W.
    repeat split; try done; [unfold crit_weight; lia|].
    destruct (released (sys_win σ)).
    + by eapply phase_loser.
    + by apply phase_early.
  - (* released := w.released *)
    rewrite length_insert. specialize (W (AtWrite (released (sys_win σ)))).
    simpl in W. repeat split; try done; [unfold crit_weight; lia|].
    destruct (released (sys_win σ)).
    + by eapply phase_loser.
    + by apply phase_early.
  - (* w.released = true *)
    rewrite length_insert. specialize (W (AtUnlock was)). simpl in W.
    repeat split; try done; [unfold crit_weight; lia|].
    destruct (released (sys_win σ)) eqn:Er.
    + pose proof (phase_true_lookup _ _ _ _ _ Hph Hi eq_refl) as Hl.
      destruct was; [|done]. by eapply phase_loser.
    + destruct (phase_set w0 _ _ i was Hph Hi) as [-> Hph'];
        [unfold crit_weight; destruct (mu σ); lia|done].
  - (* w.mu.Unlock() *)
    rewrite length_insert. specialize (W (AtBranch was)). simpl in W.
    repeat split; try done; [unfold crit_weight; destruct (mu σ); lia|].
    destruct (released (sys_win σ)) eqn:Er.
    + destruct was.
      * by eapply phase_loser.
      * rewrite <- (app_nil_r (log σ)).
        by apply (phase_winner w0 _ _ i (AtUnlock false) _ []).
    + destruct Hph as [_ Ha]. by specialize (Ha i _ Hi).
  - (* if released { return } *)
    rewrite length_insert.
    specialize (W (if was then Returned true else AtFreePicture)).
    repeat split; try done; [unfold crit_weight; destruct was; simpl in W; lia|].
    destruct (released (sys_win σ)) eqn:Er.
    + destruct was.
      * by eapply phase_loser.
      * rewrite <- (app_nil_r (log σ)).
        by apply (phase_winner w0 _ _ i (AtBranch false) _ []).
    + destruct Hph as [_ Ha]. by specialize (Ha i _ Hi).
  - (* render.FreePicture *)
    rewrite length_insert. specialize (W AtFreeGC). simpl in W.
    repeat split; try done; [unfold crit_weight; lia|].
    destruct (released (sys_win σ)) eqn:Er.
    + rewrite Hxp.
      by apply (phase_winner w0 _ _ i AtFreePicture _ [XReq (xproto.FreePicture (xp w0))]).
    + destruct Hph as [_ Ha]. by specialize (Ha i _ Hi).
  - (* xproto.FreeGC *)
    rewrite length_insert. specialize (W AtDestroyWindow). simpl in W.
    repeat split; try done; [unfold crit_weight; lia|].
    destruct (released (sys_win σ)) eqn:Er.
    + rewrite Hxg.
      by apply (phase_winner w0 _ _ i AtFreeGC _ [XReq (xproto.FreeGC (xg w0))]).
    + destruct Hph as [_ Ha]. by specialize (Ha i _ Hi).
  - (* xproto.DestroyWindow *)
    rewrite length_insert. specialize (W (Returned false)). simpl in W.
    repeat split; try done; [unfold crit_weight; lia|].
    destruct (released (sys_win σ)) eqn:Er.
    + rewrite Hxw.
      by apply (phase_winner w0 _ _ i AtDestroyWindow _
                  [XReq (xproto.DestroyWindow (xw w0))]).
    + destruct Hph as [_ Ha]. by specialize (Ha i _ Hi).
  - done.
Qed.

Lemma Inv_exec (n : nat) (w0 : windowImpl) (sched : list nat) : forall σ,
  Inv n w0 σ -> Inv n w0 (exec sched σ).
Proof.
  induction sched as [|i rest IH]; intros σ H; [done|].
  apply (IH (step i σ)). by apply Inv_step.
Qed.

Lemma exec_app (s1 s2 : list nat) (σ : system) :
  exec (s1 ++ s2) σ = exec s2 (exec s1 σ).
Proof. apply fold_left_app. Qed.

(** [w.released] is never reset. *)
Lemma released_step (i : nat) (σ : system) :
  released (sys_win σ) = true -> released (sys_win (step i σ)) = true.
Proof.
  intros H. unfold step, perform. destruct (calls σ !! i) as [p|]; [|done].
  destruct p as [| |was|was|was| | | |was]; simpl; try done.
  by destruct (mu σ).
Qed.

Lemma released_exec (sched : list nat) : forall σ,
  released (sys_win σ) = true -> released (sys_win (exec sched σ)) = true.
Proof.
  induction sched as [|i rest IH]; intros σ H; [done|].
  apply (IH (step i σ)). by apply released_step.
Qed.

Lemma flags_cons (i : nat) (rest : list nat) (σ : system) :
  flags (i :: rest) σ = released (sys_win σ) :: flags rest (step i σ).
Proof. reflexivity. Qed.

Lemma flags_head (sched : list nat) (σ : system) :
  exists t, flags sched σ = released (sys_win σ) :: t.
Proof. destruct sched; by eexists. Qed.

Lemma rises_cons (a b : bool) (t : list bool) :
  rises (a :: b :: t) = (if negb a && b then 1 else 0) + rises (b :: t).
Proof. reflexivity. Qed.

(** The flag rises once if it starts false and ends true, and otherwise not
    at all. *)
Lemma rises_flags (sched : list nat) : forall σ,
  rises (flags sched σ) =
    if negb (released (sys_win σ)) && released (sys_win (exec sched σ))
    then 1 else 0.
Proof.
  induction sched as [|i rest IH]; intros σ.
  - simpl. by destruct (released (sys_win σ)).
  - rewrite flags_cons. specialize (IH (step i σ)).
    destruct (flags_head rest (step i σ)) as [t Ht]. rewrite Ht in *.
    change (exec (i :: rest) σ) with (exec rest (step i σ)).
    rewrite rises_cons, IH.
    destruct (released (sys_win σ)) eqn:E0.
    + rewrite (released_step i σ E0). done.
    + destruct (released (sys_win (step i σ))) eqn:E1; simpl.
      * by rewrite (released_exec rest _ E1).
      * done.
Qed.

Lemma all_returned_weight (σ : system) :
  all_returned σ = true <-> sum_list_with remaining (calls σ) = 0.
Proof.
  unfold all_returned. induction (calls σ) as [|p l IH]; simpl; [done|].
  rewrite andb_true_iff, IH. destruct p; simpl; split; try done; try lia.
Qed.

(** Some call can always take a step, unless all have returned. *)
Lemma step_progress (n : nat) (w0 : windowImpl) (σ : system) :
  Inv n w0 σ -> 0 < sum_list_with remaining (calls σ) ->
  exists i, sum_list_with remaining (calls (step i σ))
            < sum_list_with remaining (calls σ).
Proof.
  intros (_ & _ & Hmu & _) Hpos.
  assert (exists i p, calls σ !! i = Some p /\ 0 < remaining p
                      /\ (mu σ = true -> in_crit p = true))
    as (i & p & Hi & Hp & Hc).
  { destruct (mu σ).
    - destruct (weight_positive crit_weight (calls σ)) as (i & p & Hi & Hp);
        [lia|]. exists i, p. unfold crit_weight in Hp.
      destruct p; simpl in *; repeat split; try done; lia.
    - destruct (weight_positive remaining (calls σ) Hpos) as (i & p & Hi & Hp).
      by exists i, p. }
  exists i. unfold step, perform. rewrite Hi.
  pose proof (fun q => weight_insert remaining (calls σ) i p q Hi) as W.
  destruct p as [| |was|was|was| | | |was]; simpl in *; try lia.
  - destruct (mu σ); [by specialize (Hc eq_refl)|].
    specialize (W AtRead). simpl in *. lia.
  - specialize (W (AtWrite (released (sys_win σ)))). simpl in *. lia.
  - specialize (W (AtUnlock was)). simpl in *. lia.
  - specialize (W (AtBranch was)). simpl in *. lia.
  - specialize (W (if was then Returned true else AtFreePicture)).
    destruct was; simpl in *; lia.
  - specialize (W AtFreeGC). simpl in *. lia.
  - specialize (W AtDestroyWindow). simpl in *. lia.
  - specialize (W (Returned false)). simpl in *. lia.
Qed.

(** From every reachable state some schedule lets every call return. *)
Lemma can_complete (n : nat) (w0 : windowImpl) (k : nat) : forall σ,
  Inv n w0 σ -> sum_list_with remaining (calls σ) <= k ->
  exists rest, all_returned (exec rest σ) = true.
Proof.
  induction k as [|k IH]; intros σ HI Hk.
  - exists []. apply all_returned_weight. simpl. lia.
  - destruct (decide (sum_list_with remaining (calls σ) = 0)) as [E|E].
    + exists []. by apply all_returned_weight.
    + destruct (step_progress n w0 σ HI) as [i Hi]; [lia|].
      destruct (IH (step i σ)) as [rest Hr]; [by apply Inv_step|lia|].
      by exists (i :: rest).
Qed.

(** Once every call has returned, exactly one of them found the flag false,
    and the log holds its three frees. *)
Lemma Inv_returned (n : nat) (w0 : windowImpl) (σ : system) :
  1 <= n -> Inv n w0 σ -> all_returned σ = true ->
  released (sys_win σ) = true
  /\ exists j, j < n /\ log σ = pair j <$> frees w0
       /\ calls σ = <[j := Returned false]> (replicate n (Returned true)).
Proof.
  intros Hn (Hlen & _ & _ & Hph) Hall.
  pose proof (weight_zero remaining _ (proj1 (all_returned_weight σ) Hall)) as Hz.
  destruct (released (sys_win σ)).
  - split; [done|]. destruct Hph as (j & pj & Hj & Hw & Hl & Ho).
    pose proof (Hz j pj Hj) as Hpj.
    assert (pj = Returned false) as -> by (by destruct pj as [| |[]|[]|[]| | | |[]]).
    pose proof (lookup_lt_Some _ _ _ Hj) as Hlt.
    exists j. repeat split; [lia|done|].
    apply list_eq. intros k. destruct (decide (k = j)) as [->|Hne].
    + rewrite list_lookup_insert_eq by (rewrite length_replicate; lia). done.
    + rewrite list_lookup_insert_ne by done.
      destruct (calls σ !! k) as [q|] eqn:Hk.
      * pose proof (Hz k q Hk) as Hq. pose proof (Ho k q Hne Hk) as Hq'.
        pose proof (lookup_lt_Some _ _ _ Hk).
        rewrite lookup_replicate_2 by lia.
        by destruct q as [| |[]|[]|[]| | | |[]].
      * apply lookup_ge_None in Hk. symmetry. apply lookup_ge_None.
        rewrite length_replicate. lia.
  - destruct Hph as [_ Ha].
    destruct (calls σ) as [|p l] eqn:E; simpl in Hlen; [lia|].
    pose proof (Ha 0 p eq_refl). pose proof (Hz 0 p eq_refl).
    by destruct p as [| |[]|[]|[]| | | |[]].
Qed.

(** At any moment the log is the beginning of the three frees, all by one call. *)
Lemma Inv_log (n : nat) (w0 : windowImpl) (σ : system) :
  Inv n w0 σ -> exists j k, log σ = pair j <$> take k (frees w0).
Proof.
  intros (_ & _ & _ & Hph). destruct (released (sys_win σ)).
  - destruct Hph as (j & pj & _ & _ & -> & _). exists j.
    destruct pj as [| |[]|[]|[]| | | |[]];
      first [by exists 0 | by exists 1 | by exists 2 | by exists 3].
  - destruct Hph as [-> _]. by exists 0, 0.
Qed.

(** C1. [n >= 1] calls of [Release] on a fresh window, interleaved in any
    way.  At every moment the flag has risen from false to true at most
    once and the requests issued so far are a beginning of FreePicture,
    FreeGC, DestroyWindow, all issued by one call.  Once every call has
    returned, the flag has risen exactly once and is true, the three frees
    have been issued exactly once, in that order, by the one call that found
    the flag false, and every other call found it true and returned without
    a free.  Whatever has happened so far, the calls can all return. *)
Theorem Release_once (w : windowImpl) (n : nat) (sched : list nat)
    (Hfresh : released w = false) (Hn : 1 <= n) :
  let σ := exec sched (init n w) in
  rises (flags sched (init n w)) <= 1
  /\ (exists j k, log σ = pair j <$> take k (frees w))
  /\ (all_returned σ = true ->
        rises (flags sched (init n w)) = 1
        /\ released (sys_win σ) = true
        /\ exists j, j < n /\ log σ = pair j <$> frees w
             /\ calls σ = <[j := Returned false]> (replicate n (Returned true)))
  /\ exists rest, all_returned (exec (sched ++ rest) (init n w)) = true.
Proof.
  intros σ.
  assert (HI : Inv n w σ) by (apply Inv_exec, Inv_init, Hfresh).
  rewrite rises_flags. fold σ. simpl. rewrite Hfresh. simpl.
  split; [by destruct (released (sys_win σ)); lia|].
  split; [by eapply Inv_log|]. split.
  - intros Hall. destruct (Inv_returned n w σ Hn HI Hall) as [-> Hj]. done.
  - destruct (can_complete n w _ σ HI (le_n _)) as [rest Hr].
    exists rest. by rewrite exec_app.
Qed.

Lemma Release_once_witness :
  let σ := exec two_calls_interleaved (init 2 sample_window) in
  rises (flags two_calls_interleaved (init 2 sample_window)) = 1
  /\ released (sys_win σ) = true
  /\ exists j, j < 2 /\ log σ = pair j <$> frees sample_window
       /\ calls σ = <[j := Returned false]> (replicate 2 (Returned true)).
Proof.
  intros σ.
  destruct (Release_once sample_window 2 two_calls_interleaved eq_refl
              (le_S 1 1 (le_n 1))) as (_ & _ & H & _).
  exact (H eq_refl).
Defined.

(** Two calls interleaved: the second one waits for the mutex, finds the flag
    set and returns; the first one frees. *)
Example Release_interleaved :
  let σ := exec two_calls_interleaved (init 2 sample_window) in
  calls σ = [Returned false; Returned true]
  /\ log σ = [(0, XReq (xproto.FreePicture 12%Z)); (0, XReq (xproto.FreeGC 11%Z));
              (0, XReq (xproto.DestroyWindow 10%Z))]
  /\ flags two_calls_interleaved (init 2 sample_window) =
       [false; false; false; false; true; true; true; true; true; true; true;
        true; true; true; true; true; true].
Proof. repeat split; reflexivity. Qed.

(** A call that finds the mutex held does not move. *)
Example Release_blocked :
  exec [0; 1; 1; 1]
    (init 2 sample_window) =
    {| sys_win := sample_window; mu := true; calls := [AtRead; AtLock]; log := [] |}.
Proof. reflexivity. Qed.

Lemma Release_run (w : windowImpl) (h : list Action) :
  Release {| win := w; history := h |} =
    (tt, {| win := set_released true w;
            history := h ++ (if released w then [] else frees w) |}).
Proof.
  unfold Release. run. destruct (released w); simpl.
  - by rewrite app_nil_r.
  - by rewrite <- !app_assoc.
Qed.

(** [n >= 1] calls one after the other issue the three frees once. *)
Lemma Release_times_run (n : nat) : forall (w : windowImpl) (h : list Action),
  1 <= n ->
  Release_times n {| win := w; history := h |} =
    (tt, {| win := set_released true w;
            history := h ++ (if released w then [] else frees w) |}).
Proof.
  induction n as [|n IH]; intros w h Hn; [lia|].
  change (Release_times (S n)) with (Release ;; Release_times n).
  unfold mbind, M_bind. rewrite Release_run.
  destruct n as [|n].
  - done.
  - rewrite IH by lia. simpl. by rewrite app_nil_r.
Qed.

Lemma exec_cons (i : nat) (rest : list nat) (σ : system) :
  exec (i :: rest) σ = exec rest (step i σ).
Proof. reflexivity. Qed.

Ltac walk Hlt :=
  rewrite exec_cons; unfold step at 1;
  cbn [calls goto set_mu sys_mod_win emit];
  rewrite list_lookup_insert_eq by (rewrite ?length_insert; exact Hlt);
  cbn [perform goto set_mu sys_mod_win emit calls mu sys_win log released
       set_released xp xg xw];
  rewrite ?list_insert_insert_eq.

(** A call that runs from start to end without another one in between does
    to the window and to the connection what [Release] does. *)
Lemma system_eq (a b : system) :
  sys_win a = sys_win b -> mu a = mu b -> calls a = calls b -> log a = log b ->
  a = b.
Proof. destruct a, b. simpl. by intros -> -> -> ->. Qed.

Lemma Release_uninterrupted (i : nat) (σ : system) :
  calls σ !! i = Some AtLock -> mu σ = false ->
  let σ0 := {| win := sys_win σ; history := [] |} in
  exec (replicate 8 i) σ =
    {| sys_win := win (after Release σ0);
       mu := false;
       calls := <[i := Returned (released (sys_win σ))]> (calls σ);
       log := log σ ++ (pair i <$> history (after Release σ0)) |}.
Proof.
  intros Hi Hmu σ0. pose proof (lookup_lt_Some _ _ _ Hi) as Hlt.
  unfold after, σ0. rewrite Release_run. cbn [snd win history app].
  change (replicate 8 i) with [i; i; i; i; i; i; i; i].
  rewrite exec_cons. unfold step at 1. rewrite Hi. cbn [perform]. rewrite Hmu.
  do 3 walk Hlt.
  destruct (released (sys_win σ)); do 4 walk Hlt;
    unfold exec; cbn [fold_left];
    apply system_eq;
    cbn [sys_win mu calls log goto set_mu sys_mod_win emit set_released
         xp xg xw fmap list_fmap frees];
    rewrite ?list_insert_insert_eq, ?app_nil_r, <- ?app_assoc; reflexivity.
Qed.

(** * Further properties *)

Local Open Scope Z_scope.

(** ** translateToScreen, WarpMouse, AbsolutePosition, SetTitle *)

(** X1. [translateToScreen] issues exactly one coordinate-translation
    request, from the window to the given screen's root, with the point cut
    to int16.  When the reply is an error it returns the zero point and that
    error; otherwise it returns the reply's destination and nil.  The window
    is left as it is. *)
Theorem translateToScreen_reply (env : Env) (scr : xproto.ScreenInfo)
    (p : image.Point) (σ : world) (Hwf : Env_wf env) :
  let req := XReq (xproto.TranslateCoordinates (xw (win σ)) (xproto.Root scr)
                     (int16 (image.X p)) (int16 (image.Y p))) in
  after (translateToScreen env scr p) σ =
    {| win := win σ; history := history σ ++ [req] |}
  /\ result (translateToScreen env scr p) σ =
       match x_translate env (history σ ++ [req]) with
       | inl err => ({| image.X := 0; image.Y := 0 |}, Some err)
       | inr tcr => ({| image.X := xproto.DstX tcr; image.Y := xproto.DstY tcr |},
                     None)
       end.
Proof.
  intros req. unfold translateToScreen. run. fold req.
  destruct (x_translate env (history σ ++ [req])) as [err|tcr] eqn:E; simpl.
  - done.
  - destruct (Hwf _ _ E) as [Hx Hy]. by rewrite !int_int16.
Qed.

Lemma translateToScreen_reply_witness :
  result (translateToScreen quiet_env (x_default_screen quiet_env)
            {| image.X := 5; image.Y := 7 |}) sample_world =
    ({| image.X := 105; image.Y := 207 |}, None).
Proof.
  exact (proj2 (translateToScreen_reply quiet_env (x_default_screen quiet_env)
                  {| image.X := 5; image.Y := 7 |} sample_world quiet_env_wf)).
Defined.

Lemma int16_periodic (n k : Z) : int16 (n + 65536 * k) = int16 n.
Proof.
  unfold int16, wrap_signed. change (2 ^ 16) with 65536.
  replace (n + 65536 * k + 2 ^ (16 - 1)) with (n + 2 ^ (16 - 1) + k * 65536) by lia.
  by rewrite Z.mod_add.
Qed.

(** X2. The point handed to [WarpMouse] and to [translateToScreen] is cut to
    16 bits before it is sent: two points whose coordinates differ by
    multiples of 65536 give the same requests, the same result and the same
    final state. *)
Theorem WarpMouse_wraps (env : Env) (σ : world) (p : image.Point) (j k : Z) :
  let q := {| image.X := image.X p + 65536 * j;
              image.Y := image.Y p + 65536 * k |} in
  WarpMouse env q σ = WarpMouse env p σ
  /\ forall scr, translateToScreen env scr q σ = translateToScreen env scr p σ.
Proof.
  intros q.
  assert (T : forall scr σ', translateToScreen env scr q σ' =
                             translateToScreen env scr p σ').
  { intros scr σ'. unfold translateToScreen. run.
    by rewrite !int16_periodic. }
  split; [|intros scr; apply T].
  unfold WarpMouse. run.
  destruct (x_input_focus env _) as [err|gifr]; [done|].
  destruct (negb _); [done|]. by rewrite T.
Qed.

(** A point 40000 pixels to the right is translated as if it were 25536
    pixels to the left. *)
Example WarpMouse_far_right :
  history (after (WarpMouse quiet_env {| image.X := 40000; image.Y := 7 |})
             sample_world) =
    [XReq xproto.GetInputFocus;
     XReq (xproto.TranslateCoordinates 10 1 (-25536) 7);
     XReq (xproto.WarpPointerChecked 0 1 0 0 0 0 105 207)].
Proof. reflexivity. Qed.

(** X15. [AbsolutePosition] is [translateToScreen] of the origin to the
    session's root with the error dropped: the same request goes out, the
    same state results, and the position returned is the point
    [translateToScreen] returns. *)
Theorem AbsolutePosition_translate (env : Env) (σ : world) :
  let origin := {| image.X := 0; image.Y := 0 |} in
  let tr := translateToScreen env (xsi (s (win σ))) origin in
  after (AbsolutePosition env) σ = after tr σ
  /\ result (AbsolutePosition env) σ =
       (image.X (fst (result tr σ)), image.Y (fst (result tr σ))).
Proof.
  intros origin tr. subst tr. unfold AbsolutePosition, translateToScreen. run.
  change (int16 0) with 0.
  by destruct (x_translate env _).
Qed.

Lemma list_byte_of_string_length (t : string) :
  length (list_byte_of_string t) = String.length t.
Proof.
  unfold list_byte_of_string. rewrite length_map.
  induction t as [|c t IH]; simpl; [done|]. by rewrite IH.
Qed.

(** X3. The length field of the request [SetTitle] issues is the number of
    bytes of the title whenever the title is shorter than 2^32 bytes, and the
    payload has that many bytes. *)
Theorem SetTitle_length (env : Env) (σ : world) (title : string)
    (Hlen : Z.of_nat (String.length title) < 2 ^ 32) :
  exists data,
    history (after (SetTitle env title) σ) =
      history σ ++
      [XReq (xproto.ChangePropertyChecked xproto.PropModeReplace (xw (win σ))
               (atomNetWMName (s (win σ))) (atomUTF8String (s (win σ))) 8
               (Z.of_nat (String.length title)) data)]
    /\ length data = String.length title.
Proof.
  exists (list_byte_of_string title). unfold SetTitle. run.
  rewrite list_byte_of_string_length. split; [|done].
  unfold uint32, wrap_unsigned. rewrite Z.mod_small; [done|lia].
Qed.

Lemma SetTitle_length_witness :
  exists data,
    history (after (SetTitle quiet_env "Example") sample_world) =
      [XReq (xproto.ChangePropertyChecked 0 10 301 302 8 7 data)]
    /\ length data = 7%nat.
Proof.
  apply (SetTitle_length quiet_env sample_world "Example"). reflexivity.
Defined.

(** ** handleMouse *)

(** X4. Whatever [handleMouse] enqueues for a byte-valued raw button: the
    raw wheel numbers 4 to 7 never reach the queue; an event with a wheel
    button has direction step and comes from a press; an event with any other
    button carries the raw button and the raw direction. *)
Theorem handleMouse_events (env : Env) (σ : world) (x y b state : Z)
    (dir : mouse.Direction) (e : mouse.Event) (Hb : is_uint8 b)
    (He : In (EvMouse e) (enqueued (handleMouse env x y b state dir) σ)) :
  ~ 4 <= mouse.Button_ e <= 7
  /\ (mouse.IsWheel (mouse.Button_ e) = true ->
        mouse.Direction_ e = mouse.DirStep /\ dir = mouse.DirPress
        /\ 4 <= b <= 7)
  /\ (mouse.IsWheel (mouse.Button_ e) = false ->
        mouse.Direction_ e = dir /\ mouse.Button_ e = b)
  /\ mouse.Modifiers e = KeyModifiers env state.
Proof.
  unfold handleMouse, wheel_direction in He. rewrite (int32_uint8 b Hb) in He.
  destruct (decide (4 <= b <= 7)) as [Hw|Hw].
  - destruct (remap_button_wheel b Hw) as [Hiw Hr]. rewrite Hiw in He.
    destruct (Z.eqb_spec dir mouse.DirPress) as [->|Hd]; simpl in He.
    + revert He. run. rewrite drop_app_length. intros [[= <-]|[]]. simpl.
      rewrite Hiw. repeat split; try done; try lia.
      unfold mouse.IsWheel in Hiw. apply Z.ltb_lt in Hiw. lia.
    + revert He. run. rewrite drop_all. by intros [].
  - destruct (remap_button_other b) as [Hr Hiw]; [apply Hb|done|].
    rewrite Hiw in He. revert He. run. rewrite drop_app_length.
    intros [[= <-]|[]]. simpl. rewrite Hr. rewrite Hr in Hiw. rewrite Hiw.
    repeat split; try done.
Qed.

Lemma handleMouse_events_witness :
  let e := {| mouse.X := float32_of_int 3; mouse.Y := float32_of_int 4;
              mouse.Button_ := mouse.ButtonWheelDown; mouse.Modifiers := 0;
              mouse.Direction_ := mouse.DirStep |} in
  In (EvMouse e) (enqueued (handleMouse quiet_env 3 4 5 0 mouse.DirPress) sample_world)
  /\ ~ 4 <= mouse.Button_ e <= 7.
Proof.
  intros e.
  assert (Hb : is_uint8 5) by (unfold is_uint8; lia).
  assert (He : In (EvMouse e)
     (enqueued (handleMouse quiet_env 3 4 5 0 mouse.DirPress) sample_world))
    by (left; reflexivity).
  split; [exact He|].
  exact (proj1 (handleMouse_events quiet_env sample_world 3 4 5 0 mouse.DirPress
                  e Hb He)).
Defined.

Lemma exact_int16 : exact_from (Z.to_nat 65536) (-32768) = true.
Proof. vm_compute. reflexivity. Qed.

(** Every int16 value converts to float32 without rounding. *)
Lemma float32_of_int16_exact (n : Z) :
  is_int16 n -> float32_to_Z (float32_of_int n) = Some n.
Proof.
  intros H. unfold is_int16 in H.
  pose proof (exact_from_spec (Z.to_nat 65536) (-32768) n exact_int16) as E.
  rewrite Z2Nat.id in E by lia. unfold converts_exactly in E.
  destruct (float32_to_Z (float32_of_int n)) as [m|].
  - f_equal. apply Z.eqb_eq, E. lia.
  - discriminate E. lia.
Qed.

(** X5. The float32 coordinates of every mouse event [handleMouse] enqueues
    denote exactly the int16 pixel coordinates of the notification, negative
    ones included. *)
Theorem handleMouse_coordinates (env : Env) (σ : world) (x y b state : Z)
    (dir : mouse.Direction) (e : mouse.Event)
    (Hx : is_int16 x) (Hy : is_int16 y)
    (He : In (EvMouse e) (enqueued (handleMouse env x y b state dir) σ)) :
  float32_to_Z (mouse.X e) = Some x /\ float32_to_Z (mouse.Y e) = Some y.
Proof.
  unfold handleMouse in He.
  destruct (wheel_direction _ dir) as [d|]; revert He; run.
  - rewrite drop_app_length. intros [[= <-]|[]]. simpl.
    split; by apply float32_of_int16_exact.
  - rewrite drop_all. by intros [].
Qed.

Lemma handleMouse_coordinates_witness :
  let e := {| mouse.X := float32_of_int (-3); mouse.Y := float32_of_int 4;
              mouse.Button_ := mouse.ButtonLeft; mouse.Modifiers := 0;
              mouse.Direction_ := mouse.DirPress |} in
  In (EvMouse e) (enqueued (handleMouse quiet_env (-3) 4 1 0 mouse.DirPress) sample_world)
  /\ float32_to_Z (mouse.X e) = Some (-3) /\ float32_to_Z (mouse.Y e) = Some 4.
Proof.
  intros e.
  assert (Hx : is_int16 (-3)) by (unfold is_int16; lia).
  assert (Hy : is_int16 4) by (unfold is_int16; lia).
  assert (He : In (EvMouse e)
     (enqueued (handleMouse quiet_env (-3) 4 1 0 mouse.DirPress) sample_world))
    by (left; reflexivity).
  split; [exact He|].
  exact (handleMouse_coordinates quiet_env sample_world (-3) 4 1 0 mouse.DirPress
           e Hx Hy He).
Defined.

(** ** Sequences of notifications *)

(** [handleConfigureNotify] without any assumption on the notification. *)
Lemma handleConfigureNotify_any (env : Env) (σ : world)
    (ev : xproto.ConfigureNotifyEvent) :
  exists evs,
    handleConfigureNotify env ev σ =
      (tt, {| win := win (after (handleConfigureNotify env ev) σ);
              history := history σ ++ lifecycle_calls ev |})
    /\ Deque (win (after (handleConfigureNotify env ev) σ)) = Deque (win σ) ++ evs.
Proof.
  unfold handleConfigureNotify, lifecycler_SetVisible, lifecycler_SendEvent,
    lifecycle_calls. run. rewrite <- app_assoc. simpl.
  destruct (lifecycler_emit env _) as [e|]; run;
    destruct (_ && _); run.
  - by exists [EvLifecycle e].
  - eexists. split; [done|]. by rewrite <- app_assoc.
  - exists []. split; [by destruct σ|by rewrite app_nil_r].
  - by eexists.
Qed.

(** Every handler only adds to the back of the queue. *)
Lemma call_handler_extends (env : Env) (c : HandlerCall) (σ : world) :
  Deque (win (after (call_handler env c) σ)) =
    Deque (win σ) ++ enqueued (call_handler env c) σ.
Proof.
  assert (exists evs, Deque (win (after (call_handler env c) σ)) = Deque (win σ) ++ evs)
    as [evs E].
  { destruct c as [ev| |x y b state dir]; simpl.
    - destruct (handleConfigureNotify_any env σ ev) as (evs & _ & E). by exists evs.
    - by exists [EvPaint].
    - unfold handleMouse. destruct (wheel_direction _ dir); run.
      + by eexists.
      + exists []. by rewrite app_nil_r. }
  unfold enqueued. by rewrite E, drop_app_length.
Qed.


Lemma call_handlers_cons (env : Env) (c : HandlerCall) (cs : list HandlerCall)
    (σ : world) :
  after (call_handlers env (c :: cs)) σ =
    after (call_handlers env cs) (after (call_handler env c) σ).
Proof.
  unfold after. simpl. unfold mbind, M_bind.
  by destruct (call_handler env c σ).
Qed.

Lemma call_handlers_extends (env : Env) (cs : list HandlerCall) : forall σ,
  Deque (win (after (call_handlers env cs) σ)) =
    Deque (win σ) ++ enqueued (call_handlers env cs) σ.
Proof.
  induction cs as [|c cs IH]; intros σ.
  - unfold enqueued. run. by rewrite drop_all, app_nil_r.
  - unfold enqueued. rewrite call_handlers_cons, IH, call_handler_extends.
    by rewrite <- app_assoc, drop_app_length.
Qed.

Lemma enqueued_cons (env : Env) (c : HandlerCall) (cs : list HandlerCall)
    (σ : world) :
  enqueued (call_handlers env (c :: cs)) σ =
    enqueued (call_handler env c) σ
    ++ enqueued (call_handlers env cs) (after (call_handler env c) σ).
Proof.
  unfold enqueued at 1.
  rewrite call_handlers_cons, call_handlers_extends, call_handler_extends.
  by rewrite <- app_assoc, drop_app_length.
Qed.



(** A resize, an exposure and a click come out as size, paint, mouse. *)
Example handlers_size_paint_mouse :
  Deque (win (after (call_handlers quiet_env
                       [CallConfigureNotify resize_800x600_to_1024x768;
                        CallExpose;
                        CallMouse 3 4 1 0 mouse.DirPress]) sample_world)) =
    [EvSize (size_event sample_window resize_800x600_to_1024x768);
     EvPaint;
     EvMouse {| mouse.X := float32_of_int 3; mouse.Y := float32_of_int 4;
                mouse.Button_ := mouse.ButtonLeft; mouse.Modifiers := 0;
                mouse.Direction_ := mouse.DirPress |}].
Proof. reflexivity. Qed.


Lemma same_dims_same_size (w : windowImpl) (ev : xproto.ConfigureNotifyEvent) :
  same_dims (dims ev) (width w, height w) = same_size w ev.
Proof.
  unfold same_dims, same_size, dims. simpl.
  by rewrite (Z.eqb_sym (xproto.Width ev)), (Z.eqb_sym (xproto.Height ev)).
Qed.

Lemma size_dims_lifecycle (env : Env) (σ : world) (ev : xproto.ConfigureNotifyEvent) :
  size_dims (lifecycle_events env σ ev) = [].
Proof. unfold lifecycle_events. by destruct (lifecycler_emit env _). Qed.

(** What one handler call does to the stored size and to the size events. *)
Lemma call_handler_sizes (env : Env) (c : HandlerCall) (σ : world) :
  wf_call c ->
  let cur := (width (win σ), height (win σ)) in
  let σ' := after (call_handler env c) σ in
  size_dims (enqueued (call_handler env c) σ) = changes cur (configure_dims [c])
  /\ (width (win σ'), height (win σ')) = List.last (configure_dims [c]) cur.
Proof.
  intros Hwf cur σ'. subst σ'. destruct c as [ev| |x y b state dir]; simpl.
  - destruct Hwf as [Hw Hh]. unfold enqueued, after.
    rewrite (handleConfigureNotify_run env σ ev Hw Hh). simpl.
    subst cur. rewrite same_dims_same_size.
    destruct (same_size (win σ) ev) eqn:E; simpl; rewrite drop_app_length.
    + rewrite size_dims_lifecycle. split; [done|].
      apply same_size_spec in E. by rewrite <- E.
    + unfold size_dims. rewrite omap_app. fold (size_dims (lifecycle_events env σ ev)).
      by rewrite size_dims_lifecycle.
  - unfold enqueued. run. by rewrite drop_app_length.
  - unfold enqueued, handleMouse. destruct (wheel_direction _ dir); run.
    + by rewrite drop_app_length.
    + by rewrite drop_all.
Qed.

Lemma last_cons_default {A} (l : list A) : forall a d,
  List.last (a :: l) d = List.last l a.
Proof.
  induction l as [|b l IH]; intros a d; [done|].
  change (List.last (a :: b :: l) d) with (List.last (b :: l) d).
  by rewrite !IH.
Qed.

(** X7. Over any sequence of handler calls whose configure notifications
    carry uint16 sizes, the size events enqueued are exactly the sizes of the
    configure notifications with every size that repeats the one before it
    left out, the stored size being the one before the first; at the end the
    stored size is that of the last configure notification. *)
Theorem size_events_are_changes (env : Env) (cs : list HandlerCall) (σ : world)
    (Hwf : Forall wf_call cs) :
  let cur := (width (win σ), height (win σ)) in
  let σ' := after (call_handlers env cs) σ in
  size_dims (enqueued (call_handlers env cs) σ) = changes cur (configure_dims cs)
  /\ (width (win σ'), height (win σ')) = List.last (configure_dims cs) cur.
Proof.
  revert σ. induction Hwf as [|c cs Hc Hcs IH]; intros σ cur σ'.
  - unfold enqueued. run. by rewrite drop_all.
  - subst σ'. rewrite enqueued_cons, call_handlers_cons.
    unfold size_dims at 1. rewrite omap_app.
    fold (size_dims (enqueued (call_handler env c) σ)).
    fold (size_dims (enqueued (call_handlers env cs) (after (call_handler env c) σ))).
    destruct (call_handler_sizes env c σ Hc) as [H1 H2]. fold cur in H1, H2.
    destruct (IH (after (call_handler env c) σ)) as [H3 H4].
    rewrite H1, H3, H4, H2.
    destruct c as [ev| |x y b state dir]; try done.
    change (configure_dims (CallConfigureNotify ev :: cs))
      with (dims ev :: configure_dims cs).
    change (configure_dims [CallConfigureNotify ev]) with [dims ev].
    rewrite !last_cons_default. cbn [changes app].
    change (List.last [] (dims ev)) with (dims ev).
    destruct (same_dims (dims ev) cur) eqn:E; [|done].
    split; [|done]. rewrite app_nil_l.
    unfold same_dims in E. apply andb_true_iff in E as [E1 E2].
    apply Z.eqb_eq in E1, E2. destruct cur as [a b], (dims ev) as [a' b'].
    simpl in *. by subst.
Qed.

Lemma sample_calls_wf : Forall wf_call sample_calls.
Proof. repeat constructor; unfold is_uint16; simpl; lia. Qed.

Lemma size_events_are_changes_witness :
  let σ' := after (call_handlers quiet_env sample_calls) sample_world in
  size_dims (enqueued (call_handlers quiet_env sample_calls) sample_world) =
    [(1024, 768); (800, 600)]
  /\ (width (win σ'), height (win σ')) = (800, 600).
Proof.
  exact (size_events_are_changes quiet_env sample_calls sample_world sample_calls_wf).
Defined.

(** X6. After a configure notification the stored size is the notification's,
    whether or not it changed; a notification that repeats that size, at
    whatever position, then enqueues no size event and leaves the stored size
    alone. *)
Theorem configure_repeat_absorbed (env : Env) (σ : world)
    (ev ev2 : xproto.ConfigureNotifyEvent)
    (Hw : is_uint16 (xproto.Width ev)) (Hh : is_uint16 (xproto.Height ev))
    (Hsame : dims ev2 = dims ev) :
  let σ1 := after (handleConfigureNotify env ev) σ in
  let σ2 := after (handleConfigureNotify env ev2) σ1 in
  (width (win σ1), height (win σ1)) = dims ev
  /\ List.filter is_size (enqueued (handleConfigureNotify env ev2) σ1) = []
  /\ (width (win σ2), height (win σ2)) = dims ev.
Proof.
  intros σ1 σ2.
  assert (Hw2 : is_uint16 (xproto.Width ev2)).
  { injection Hsame as -> _. exact Hw. }
  assert (Hh2 : is_uint16 (xproto.Height ev2)).
  { injection Hsame as _ ->. exact Hh. }
  assert (H1 : (width (win σ1), height (win σ1)) = dims ev).
  { subst σ1. unfold after. rewrite (handleConfigureNotify_run env σ ev Hw Hh). simpl.
    destruct (same_size (win σ) ev) eqn:E; simpl; [|done].
    apply same_size_spec in E. by rewrite <- E. }
  assert (E : same_size (win σ1) ev2 = true).
  { apply same_size_spec. fold (dims ev2). by rewrite Hsame, H1. }
  split; [exact H1|]. subst σ2. unfold enqueued, after.
  rewrite (handleConfigureNotify_run env σ1 ev2 Hw2 Hh2). simpl. rewrite E. simpl.
  rewrite drop_app_length. split; [|exact H1].
  unfold lifecycle_events. by destruct (lifecycler_emit env _).
Qed.

Lemma configure_repeat_absorbed_witness :
  let ev2 := {| xproto.X := 30; xproto.Y := 40;
                xproto.Width := 1024; xproto.Height := 768 |} in
  let σ1 := after (handleConfigureNotify rejecting_env resize_800x600_to_1024x768)
              sample_world in
  (width (win σ1), height (win σ1)) = (1024, 768)
  /\ List.filter is_size (enqueued (handleConfigureNotify rejecting_env ev2) σ1) = []
  /\ (width (win (after (handleConfigureNotify rejecting_env ev2) σ1)),
      height (win (after (handleConfigureNotify rejecting_env ev2) σ1))) = (1024, 768).
Proof.
  intros ev2.
  apply (configure_repeat_absorbed rejecting_env sample_world
           resize_800x600_to_1024x768 ev2).
  - unfold is_uint16. simpl. lia.
  - unfold is_uint16. simpl. lia.
  - reflexivity.
Defined.

(** ** The released flag and the other methods *)





(** [SetTitle] on a released window still addresses the destroyed window. *)
Example SetTitle_after_Release :
  history (after (Release ;; SetTitle quiet_env "late") sample_world) =
    frees sample_window ++
    [XReq (xproto.ChangePropertyChecked 0 10 301 302 8 4 [x6c; x61; x74; x65])].
Proof. reflexivity. Qed.

(** ** Release, called in sequence *)

(** X11. Calling [Release] again changes nothing: any number of calls one
    after the other leaves the window and the connection exactly as the
    first call alone does, whether or not the window was released before. *)
Theorem Release_times_once (n : nat) (σ : world) :
  after (Release_times (S n)) σ = after Release σ
  /\ after Release (after Release σ) = after Release σ.
Proof.
  destruct σ as [w h]. split.
  - unfold after. rewrite Release_times_run by lia. by rewrite Release_run.
  - unfold after. rewrite Release_run. cbn [snd]. rewrite Release_run. simpl.
    by rewrite app_nil_r.
Qed.

(** ** Release, interleaved: the mutex and the flag *)

Local Open Scope nat_scope.

Lemma Mutex_step (i : nat) (σ : system) : Mutex_inv σ -> Mutex_inv (step i σ).
Proof.
  unfold Mutex_inv, step, perform. intros Hmu.
  destruct (calls σ !! i) as [p|] eqn:Hi; [|done].
  weigh Hi. unfold crit_weight in *.
  destruct p as [| |was|was|was| | | |was]; simpl in *; try done.
  - destruct (mu σ) eqn:Em; [by rewrite Em|]. simpl.
    specialize (W AtRead). simpl in W. lia.
  - specialize (W (AtWrite (released (sys_win σ)))). simpl in W. lia.
  - specialize (W (AtUnlock was)). simpl in W. lia.
  - specialize (W (AtBranch was)). simpl in W. destruct (mu σ); lia.
  - specialize (W (if was then Returned true else AtFreePicture)).
    destruct was; simpl in W; lia.
  - specialize (W AtFreeGC). simpl in W. lia.
  - specialize (W AtDestroyWindow). simpl in W. lia.
  - specialize (W (Returned false)). simpl in W. lia.
Qed.

Lemma Mutex_exec (sched : list nat) : forall σ,
  Mutex_inv σ -> Mutex_inv (exec sched σ).
Proof.
  induction sched as [|i rest IH]; intros σ H; [done|].
  apply (IH (step i σ)). by apply Mutex_step.
Qed.

Lemma Mutex_init (n : nat) (w : windowImpl) : Mutex_inv (init n w).
Proof. unfold Mutex_inv, init. simpl. induction n; simpl; [done|]. by rewrite IHn. Qed.

(** X13. However the calls of [Release] are interleaved, and whatever the
    window's flag was, at most one call stands between [w.mu.Lock()] and
    [w.mu.Unlock()], and the mutex is held exactly when one does. *)
Theorem Release_mutual_exclusion (w : windowImpl) (n : nat) (sched : list nat) :
  let σ := exec sched (init n w) in
  (forall i j p q, calls σ !! i = Some p -> calls σ !! j = Some q ->
     in_crit p = true -> in_crit q = true -> i = j)
  /\ (mu σ = true <-> exists i p, calls σ !! i = Some p /\ in_crit p = true).
Proof.
  intros σ.
  assert (H : Mutex_inv σ) by apply Mutex_exec, Mutex_init.
  unfold Mutex_inv in H. split.
  - intros i j p q Hi Hj Hp Hq. destruct (decide (i = j)) as [|Hne]; [done|].
    pose proof (weight_others crit_weight _ i j p q Hi Hj Hne) as Hw.
    unfold crit_weight in Hw at 1 2. rewrite Hp, Hq in Hw.
    destruct (mu σ); lia.
  - split.
    + intros Hm. rewrite Hm in H.
      destruct (weight_positive crit_weight (calls σ)) as (i & p & Hi & Hp); [lia|].
      exists i, p. split; [done|]. unfold crit_weight in Hp.
      destruct (in_crit p); [done|lia].
    + intros (i & p & Hi & Hp).
      pose proof (weight_lookup crit_weight _ i p Hi) as Hw.
      unfold crit_weight in Hw at 1. rewrite Hp in Hw.
      destruct (mu σ); [done|lia].
Qed.

Lemma Release_mutual_exclusion_witness :
  let σ := exec [0; 1; 0; 1] (init 2 sample_window) in
  mu σ = true
  /\ calls σ = [AtWrite false; AtLock]
  /\ exists i p, calls σ !! i = Some p /\ in_crit p = true.
Proof.
  intros σ. split; [reflexivity|]. split; [reflexivity|].
  exact (proj1 (proj2 (Release_mutual_exclusion sample_window 2 [0; 1; 0; 1])) eq_refl).
Defined.

(** X14. On a fresh window no free is issued while [w.released] is still
    false: in every state the interleaved calls can reach, a false flag means
    an empty log. *)
Theorem Release_frees_after_flag (w : windowImpl) (n : nat) (sched : list nat)
    (Hfresh : released w = false) :
  let σ := exec sched (init n w) in
  released (sys_win σ) = false -> log σ = [].
Proof.
  intros σ Hrel.
  assert (HI : Inv n w σ) by (apply Inv_exec, Inv_init, Hfresh).
  destruct HI as (_ & _ & _ & Hph). rewrite Hrel in Hph. by destruct Hph.
Qed.

Lemma Release_frees_after_flag_witness :
  let σ := exec [0; 1; 0; 1] (init 2 sample_window) in
  released (sys_win σ) = false /\ log σ = [].
Proof.
  intros σ. split; [reflexivity|].
  exact (Release_frees_after_flag sample_window 2 [0; 1; 0; 1] eq_refl eq_refl).
Defined.

Lemma set_released_same (w : windowImpl) :
  released w = true -> set_released true w = w.
Proof. destruct w. simpl. by intros ->. Qed.

Lemma Inv_released_step (w0 : windowImpl) (i : nat) (σ : system) :
  released w0 = true -> Inv_released w0 σ -> Inv_released w0 (step i σ).
Proof.
  intros Hrel (Hw & Hl & Ha). unfold step, perform, Inv_released.
  destruct (calls σ !! i) as [p|] eqn:Hi; [|done].
  pose proof (Ha i p Hi) as Hp.
  destruct p as [| |[]|[]|[]| | | |[]]; simpl in *; try done.
  - destruct (mu σ); simpl; repeat split; try done. by apply all_ok_insert.
  - rewrite Hw, Hrel. repeat split; try done. by apply all_ok_insert.
  - rewrite Hw, (set_released_same w0 Hrel). repeat split; try done.
    by apply all_ok_insert.
  - repeat split; try done. by apply all_ok_insert.
  - repeat split; try done. by apply all_ok_insert.
Qed.

Lemma Inv_released_exec (w0 : windowImpl) (sched : list nat) : forall σ,
  released w0 = true -> Inv_released w0 σ -> Inv_released w0 (exec sched σ).
Proof.
  induction sched as [|i rest IH]; intros σ Hrel H; [done|].
  apply (IH (step i σ) Hrel). by apply Inv_released_step.
Qed.

Lemma step_progress_mutex (σ : system) :
  Mutex_inv σ -> 0 < sum_list_with remaining (calls σ) ->
  exists i, sum_list_with remaining (calls (step i σ))
            < sum_list_with remaining (calls σ).
Proof.
  unfold Mutex_inv. intros Hmu Hpos.
  assert (exists i p, calls σ !! i = Some p /\ 0 < remaining p
                      /\ (mu σ = true -> in_crit p = true))
    as (i & p & Hi & Hp & Hc).
  { destruct (mu σ).
    - destruct (weight_positive crit_weight (calls σ)) as (i & p & Hi & Hp);
        [lia|]. exists i, p. unfold crit_weight in Hp.
      destruct p; simpl in *; repeat split; try done; lia.
    - destruct (weight_positive remaining (calls σ) Hpos) as (i & p & Hi & Hp).
      by exists i, p. }
  exists i. unfold step, perform. rewrite Hi.
  pose proof (fun q => weight_insert remaining (calls σ) i p q Hi) as W.
  destruct p as [| |was|was|was| | | |was]; simpl in *; try lia.
  - destruct (mu σ); [by specialize (Hc eq_refl)|].
    specialize (W AtRead). simpl in *. lia.
  - specialize (W (AtWrite (released (sys_win σ)))). simpl in *. lia.
  - specialize (W (AtUnlock was)). simpl in *. lia.
  - specialize (W (AtBranch was)). simpl in *. lia.
  - specialize (W (if was then Returned true else AtFreePicture)).
    destruct was; simpl in *; lia.
  - specialize (W AtFreeGC). simpl in *. lia.
  - specialize (W AtDestroyWindow). simpl in *. lia.
  - specialize (W (Returned false)). simpl in *. lia.
Qed.

Lemma can_complete_mutex (k : nat) : forall σ,
  Mutex_inv σ -> sum_list_with remaining (calls σ) <= k ->
  exists rest, all_returned (exec rest σ) = true.
Proof.
  induction k as [|k IH]; intros σ HI Hk.
  - exists []. apply all_returned_weight. simpl. lia.
  - destruct (decide (sum_list_with remaining (calls σ) = 0)) as [E|E].
    + exists []. by apply all_returned_weight.
    + destruct (step_progress_mutex σ HI) as [i Hi]; [lia|].
      destruct (IH (step i σ)) as [rest Hr]; [by apply Mutex_step|lia|].
      by exists (i :: rest).
Qed.

(** X12. Calls of [Release] on a window that is already released, however
    many and however interleaved, never issue a free and leave the window as
    it is; every call finds the flag set, and they can always all return. *)
Theorem Release_released_never_frees (w : windowImpl) (n : nat) (sched : list nat)
    (Hrel : released w = true) :
  let σ := exec sched (init n w) in
  log σ = []
  /\ sys_win σ = w
  /\ (forall i p, calls σ !! i = Some p -> is_returned p = true -> p = Returned true)
  /\ exists rest, all_returned (exec (sched ++ rest) (init n w)) = true.
Proof.
  intros σ.
  assert (HI : Inv_released w σ).
  { apply Inv_released_exec; [done|]. unfold Inv_released, init. simpl.
    repeat split. intros i p Hi. by apply lookup_replicate in Hi as [-> _]. }
  destruct HI as (Hw & Hl & Ha). repeat split; try done.
  - intros i p Hi Hp. specialize (Ha i p Hi).
    by destruct p as [| |[]|[]|[]| | | |[]].
  - destruct (can_complete_mutex (sum_list_with remaining (calls σ)) σ)
      as [rest Hr]; [apply Mutex_exec, Mutex_init|apply le_n|].
    exists rest. by rewrite exec_app.
Qed.

Lemma Release_released_never_frees_witness :
  let σ := exec two_calls_interleaved (init 2 released_window) in
  log σ = [] /\ sys_win σ = released_window
  /\ calls σ = [Returned true; Returned true].
Proof.
  intros σ.
  destruct (Release_released_never_frees released_window 2 two_calls_interleaved
              eq_refl) as (Hl & Hw & _).
  split; [exact Hl|]. split; [exact Hw|reflexivity].
Defined.
